(** * Verification of [lib_turtlebot.py]: geometry, PID controller, pose regulator

    Floating-point numbers of the Python source are modelled by the real
    numbers of the Standard Library (an idealisation: rounding is not
    modelled).  numpy 0-d and 1-d arrays are modelled by [nval]. *)

From Stdlib Require Import Reals Lra Lia String ZArith List.
Import ListNotations.
Open Scope R_scope.

(* ------------------------------------------------------------------------- *)
(** ** Python's [math.atan2] and float [%] *)

(** [math.atan2(y, x)] (C99 [atan2]; signed zeros are not modelled, so
    [atan2(0, x<0)] is [pi] as for [+0.0]). *)
Definition atan2 (y x : R) : R :=
  if Rlt_dec 0 x then atan (y / x)
  else if Rlt_dec x 0 then
    (if Rle_dec 0 y then atan (y / x) + PI else atan (y / x) - PI)
  else if Rlt_dec 0 y then PI / 2
  else if Rlt_dec y 0 then - (PI / 2)
  else 0.

(** Python float [x % m]: the result has the sign of [m]; for [m > 0] it
    is [x - m * floor(x / m)].  [Int_part] is the floor function. *)
Definition pymod (x m : R) : R := x - m * IZR (Int_part (x / m)).

(* ------------------------------------------------------------------------- *)
(** ** class Math *)

Module Math.

(** A 3x3 numpy array.  [T_to_xytheta] asserts [T.shape == (3, 3)]; the
    record type makes that assertion always true. *)
Record mat3 := Mat3 {
  m00 : R; m01 : R; m02 : R;
  m10 : R; m11 : R; m12 : R;
  m20 : R; m21 : R; m22 : R }.

(** [Math.xytheta_to_T] *)
Definition xytheta_to_T (x y theta : R) : mat3 :=
  let c := cos theta in
  let s := sin theta in
  Mat3 c (- s) x
       s c y
       0 0 1.

(** [Math.T_to_xytheta] *)
Definition T_to_xytheta (T : mat3) : R * R * R :=
  let x := m02 T in
  let y := m12 T in
  let s := m10 T in
  let c := m00 T in
  let theta := atan2 s c in
  (x, y, theta).

(** [np.dot] of two 3x3 arrays: the matrix product. *)
Definition dot3 (A B : mat3) : mat3 :=
  Mat3 (m00 A * m00 B + m01 A * m10 B + m02 A * m20 B)
       (m00 A * m01 B + m01 A * m11 B + m02 A * m21 B)
       (m00 A * m02 B + m01 A * m12 B + m02 A * m22 B)
       (m10 A * m00 B + m11 A * m10 B + m12 A * m20 B)
       (m10 A * m01 B + m11 A * m11 B + m12 A * m21 B)
       (m10 A * m02 B + m11 A * m12 B + m12 A * m22 B)
       (m20 A * m00 B + m21 A * m10 B + m22 A * m20 B)
       (m20 A * m01 B + m21 A * m11 B + m22 A * m21 B)
       (m20 A * m02 B + m21 A * m12 B + m22 A * m22 B).

(** [Math.calc_dist]: [(..)**(0.5)] of a non-negative float is its square
    root. *)
Definition calc_dist (x1 y1 x2 y2 : R) : R :=
  sqrt ((x1 - x2) ^ 2 + (y1 - y2) ^ 2).

(** [Math.pi2pi] *)
Definition pi2pi (theta : R) : R := pymod (theta + PI) (2 * PI) - PI.

End Math.

(* ------------------------------------------------------------------------- *)
(** ** Python values, exceptions and the numpy arrays the code uses *)

(** Python exceptions raised by the code. *)
Inductive exn :=
| AttributeError (name : string)
| TypeError (msg : string)
| RuntimeError (msg : string)
| ValueError (msg : string)
| IndexError (msg : string).

(** Arguments passed to [PidController(...)]: a Python [float] (numpy
    [float64] included), an [int], a 1-d [np.ndarray], or [None]. *)
Inductive pyval :=
| PyFloat (r : R)
| PyInt (z : Z)
| PyArray (v : list R)
| PyNone.

(** A numpy value: a 0-d array or scalar, or a 1-d array. *)
Inductive nval :=
| NScal (r : R)
| NVec (v : list R).

Module Np.

Fixpoint zip_with (f : R -> R -> R) (u v : list R) : list R :=
  match u, v with
  | x :: u', y :: v' => f x y :: zip_with f u' v'
  | _, _ => []
  end.

Definition sum (u : list R) : R := fold_right Rplus 0 u.

(** A binary element-wise operation with numpy broadcasting; [None] is
    numpy's [ValueError: operands could not be broadcast together]. *)
Definition bcast2 (f : R -> R -> R) (a b : nval) : option nval :=
  match a, b with
  | NScal x, NScal y => Some (NScal (f x y))
  | NScal x, NVec v => Some (NVec (map (f x) v))
  | NVec u, NScal y => Some (NVec (map (fun x => f x y) u))
  | NVec u, NVec v =>
      if Nat.eqb (length u) (length v) then Some (NVec (zip_with f u v))
      else if Nat.eqb (length u) 1 then Some (NVec (map (f (hd 0 u)) v))
      else if Nat.eqb (length v) 1 then Some (NVec (map (fun x => f x (hd 0 v)) u))
      else None
  end.

(** [np.dot] on 0-d and 1-d operands: a product with a 0-d operand is
    element-wise; two 1-d arrays give their inner product (a scalar). *)
Definition dot (a b : nval) : option nval :=
  match a, b with
  | NScal x, NScal y => Some (NScal (x * y))
  | NScal x, NVec v => Some (NVec (map (Rmult x) v))
  | NVec u, NScal y => Some (NVec (map (fun x => x * y) u))
  | NVec u, NVec v =>
      if Nat.eqb (length u) (length v) then Some (NScal (sum (zip_with Rmult u v)))
      else None
  end.

(** In-place [u += b] on a 1-d array [u]: the shape of [u] is kept. *)
Definition iadd_arr (u : list R) (b : nval) : option (list R) :=
  match b with
  | NScal y => Some (map (fun x => x + y) u)
  | NVec v =>
      if Nat.eqb (length v) (length u) then Some (zip_with Rplus u v)
      else if Nat.eqb (length v) 1 then Some (map (fun x => x + hd 0 v) u)
      else None
  end.

(** [a += b]: in place when [a] is an array, a rebinding [a = a + b] when
    [a] is a Python or numpy scalar. *)
Definition iadd (a b : nval) : option nval :=
  match a with
  | NVec u => option_map NVec (iadd_arr u b)
  | NScal _ => bcast2 Rplus a b
  end.

(** [np.zeros(dim) + g] for a gain argument [g]. *)
Definition zeros_plus (dim : nat) (g : pyval) : exn + list R :=
  match g with
  | PyFloat r => inr (repeat r dim)
  | PyInt z => inr (repeat (IZR z) dim)
  | PyArray v =>
      if Nat.eqb (length v) dim then inr v
      else if Nat.eqb dim 1 then inr v
      else if Nat.eqb (length v) 1 then inr (repeat (hd 0 v) dim)
      else inl (ValueError "operands could not be broadcast together")
  | PyNone => inl (TypeError "unsupported operand type(s) for +")
  end.

End Np.

(* ------------------------------------------------------------------------- *)
(** ** class PidController *)

Module Pid.

(** The attributes of a [PidController] instance. *)
Record pid := mkPid {
  _T : R;
  _P : list R;
  _I : list R;
  _D : list R;
  _err_inte : list R;
  _err_prev : nval }.

Definition is_float (g : pyval) : bool :=
  match g with PyFloat _ => true | _ => false end.

Definition is_ndarray (g : pyval) : bool :=
  match g with PyArray _ => true | _ => false end.

(** [PidController(T, P=0, I=0, D=0)]: [None] for an argument the call
    does not pass.  A missing [T] is Python's [TypeError] of the call. *)
Definition PidController (T : option R) (P I D : option pyval) : exn + pid :=
  match T with
  | None => inl (TypeError "__init__() missing 1 required positional argument: 'T'")
  | Some T =>
    let P := match P with Some g => g | None => PyInt 0 end in
    let I := match I with Some g => g | None => PyInt 0 end in
    let D := match D with Some g => g | None => PyInt 0 end in
    let b1 := forallb is_float [P; I; D] in
    let b2 := forallb is_ndarray [P; I; D] in
    if (negb b1 && negb b2)%bool then
      inl (RuntimeError "PidController: Data type of P,I,D coefficient is wrong.")
    else
      let dim := if b1 then 1%nat
                 else match P with PyArray v => length v | _ => 0%nat end in
      match Np.zeros_plus dim P, Np.zeros_plus dim I, Np.zeros_plus dim D with
      | inr P', inr I', inr D' =>
          inr (mkPid T P' I' D' (repeat 0 dim) (NVec (repeat 0 dim)))
      | inl e, _, _ | inr _, inl e, _ | inr _, inr _, inl e => inl e
      end
  end.

(** [PidController.compute]: the state after the call (the in-place
    [self._err_inte += err] stays done if a later line raises) and the
    returned value, [None] for numpy's [ValueError]. *)
Definition compute (c : pid) (err : nval) : pid * option nval :=
  let ctrl_val := NScal 0 in
  match Np.dot err (NVec (_P c)) with
  | None => (c, None)
  | Some p =>
  match Np.iadd ctrl_val p with
  | None => (c, None)
  | Some ctrl_val =>
  match Np.iadd_arr (_err_inte c) err with
  | None => (c, None)
  | Some inte =>
  let c1 := mkPid (_T c) (_P c) (_I c) (_D c) inte (_err_prev c) in
  match Np.dot (NVec inte) (NVec (_I c)) with
  | None => (c1, None)
  | Some i =>
  match Np.bcast2 Rmult (NScal (_T c)) i with
  | None => (c1, None)
  | Some ti =>
  match Np.iadd ctrl_val ti with
  | None => (c1, None)
  | Some ctrl_val =>
  match Np.bcast2 Rminus err (_err_prev c) with
  | None => (c1, None)
  | Some de =>
  match Np.dot de (NVec (_D c)) with
  | None => (c1, None)
  | Some d =>
  match Np.bcast2 Rdiv d (NScal (_T c)) with
  | None => (c1, None)
  | Some dt =>
  match Np.iadd ctrl_val dt with
  | None => (c1, None)
  | Some ctrl_val =>
      (mkPid (_T c) (_P c) (_I c) (_D c) inte err, Some ctrl_val)
  end end end end end end end end end end.

(** Successive calls [compute(e_1)], ..., [compute(e_n)]: the outputs, and
    the state after the last call; a call that raises ends the sequence. *)
Fixpoint compute_all (c : pid) (es : list nval) : pid * list (option nval) :=
  match es with
  | [] => (c, [])
  | e :: es' =>
      let (c', out) := compute c e in
      match out with
      | None => (c', [None])
      | Some _ =>
          let (c'', outs) := compute_all c' es' in (c'', out :: outs)
      end
  end.

(** A controller built from float gains, after any number of calls with
    scalar errors: one-element gains and accumulator, previous error the
    initial [zeros(1)] or the last scalar error. *)
Definition scalar_pid (c : pid) : Prop :=
  exists T p i d s e0,
    c = mkPid T [p] [i] [d] [s] (NScal e0) \/ c = mkPid T [p] [i] [d] [s] (NVec [e0]).

End Pid.

(* ------------------------------------------------------------------------- *)
(** ** The control loop of [Turtle._move_robot_to_pose] *)

Module Regulator.

Import Math.

(** Robot config and control parameters of [_move_robot_to_pose]. *)
Definition MAX_V : R := 0.2.
Definition MAX_W : R := 0.6.
Definition MIN_V : R := 0.
Definition MIN_W : R := 0.
Definition T : R := 0.05.
Definition k_vals : list R := [0.5; 1.0; -0.5].

(** [x ** exp_ratio] with [exp_ratio = 1.0]: a float to the power [1.0]
    is the float itself. *)
Definition pow_exp_ratio (x : R) : R := x.

(** The goal after [theta_goal is None] has been replaced by [0]. *)
Record goal := mkGoal { x_goal : R; y_goal : R; theta_goal : R }.
Record tols := mkTols { x_tol : R; y_tol : R; theta_tol : R }.

(** The three controllers of the loop. *)
Record pids := mkPids { pid_rho : Pid.pid; pid_alpha : Pid.pid; pid_beta : Pid.pid }.

(** A pose [(x, y, theta)] and a velocity command [(v, w)], the arguments
    of [self.set_robot_speed(v, w)]. *)
Definition pose := (R * R * R)%type.
Definition twist := (R * R)%type.

Definition Rltb (a b : R) : bool := if Rlt_dec a b then true else false.

(** [val = pid.compute(err=e)[0]]: indexing a scalar result, or an empty
    array, raises [IndexError]. *)
Definition compute_index (c : Pid.pid) (e : R) : Pid.pid * (exn + R) :=
  match Pid.compute c (NScal e) with
  | (c', Some (NVec (a :: _))) => (c', inr a)
  | (c', Some (NVec [])) => (c', inl (IndexError "index 0 is out of bounds"))
  | (c', Some (NScal _)) => (c', inl (IndexError "invalid index to scalar variable."))
  | (c', None) => (c', inl (ValueError "operands could not be broadcast together"))
  end.

(** Lines [rho = ...], [alpha = ...], [beta = ...]. *)
Definition errors (g : goal) (p : pose) : R * R * R :=
  let '(x, y, theta) := p in
  let rho := calc_dist x y (x_goal g) (y_goal g) in
  let alpha := pi2pi (atan2 (y_goal g - y) (x_goal g - x) - theta) in
  let beta := - theta - alpha + theta_goal g in
  (rho, alpha, beta).

(** [# check direction]: [(sign, alpha, beta)]. *)
Definition check_direction (alpha beta : R) : R * R * R :=
  if Rlt_dec (PI / 2) (Rabs alpha) then (-1, pi2pi (PI - alpha), pi2pi (PI - beta))
  else (1, alpha, beta).

(** [# Threshold on velocity]: [max(lo, min(abs(v), hi)) * (1 if v > 0 else -1)]. *)
Definition saturate (lo hi v : R) : R :=
  Rmax lo (Rmin (Rabs v) hi) * (if Rlt_dec 0 v then 1 else -1).

(** The [# Check stop condition] of the loop. *)
Definition stop_condition (g : goal) (tl : tols) (p : pose) : bool :=
  let '(x, y, theta) := p in
  (Rltb (Rabs (x - x_goal g)) (x_tol tl)
   && Rltb (Rabs (y - y_goal g)) (y_tol tl)
   && Rltb (Rabs (theta - theta_goal g)) (theta_tol tl))%bool.

(** One iteration of the [while] body, at the pose [p] returned by
    [self.get_robot_pose()]: the command passed to [set_robot_speed], the
    controllers afterwards, and whether the loop breaks. *)
Definition tick (g : goal) (tl : tols) (c : pids) (p : pose)
  : exn + (twist * pids * bool) :=
  let '(rho, alpha0, beta0) := errors g p in
  let '(sign, alpha, beta) := check_direction alpha0 beta0 in
  match compute_index (pid_rho c) rho with
  | (_, inl e) => inl e
  | (pr, inr val_rho) =>
  match compute_index (pid_alpha c) alpha with
  | (_, inl e) => inl e
  | (pa, inr val_alpha) =>
  match compute_index (pid_beta c) beta with
  | (_, inl e) => inl e
  | (pb, inr val_beta) =>
      let v := sign * pow_exp_ratio val_rho in
      let w := sign * pow_exp_ratio (val_alpha + val_beta) in
      let v := saturate MIN_V MAX_V v in
      let w := saturate MIN_W MAX_W w in
      inr ((v, w), mkPids pr pa pb, stop_condition g tl p)
  end end end.

(** The three controllers are built from float gains. *)
Definition pids_ok (c : pids) : Prop :=
  Pid.scalar_pid (pid_rho c) /\ Pid.scalar_pid (pid_alpha c) /\ Pid.scalar_pid (pid_beta c).

(** How the loop ended. [Running]: still looping at the end of the
    modelled ticks. *)
Inductive status := Reached | Cancelled | Raised (e : exn) | Running.

(** The [while not rospy.is_shutdown()] loop, followed by
    [self.set_robot_speed(v=0, w=0)].  Each tick is given by the value of
    [rospy.is_shutdown()] and the pose read in that iteration; the result
    is the sequence of commands passed to [set_robot_speed]. *)
Fixpoint run (g : goal) (tl : tols) (c : pids) (ticks : list (bool * pose))
  : list twist * status :=
  match ticks with
  | [] => ([], Running)
  | (true, _) :: _ => ([(0, 0)], Cancelled)
  | (false, p) :: rest =>
      match tick g tl c p with
      | inl e => ([], Raised e)
      | inr (cmd, c', stop) =>
          if stop then ([cmd; (0, 0)], Reached)
          else let (tr, s) := run g tl c' rest in (cmd :: tr, s)
      end
  end.

End Regulator.

(* ------------------------------------------------------------------------- *)
(** ** Frame conversion and the [Turtle] methods *)

(** Lines 351-355 of [_pose_robot2world], after the current pose has been
    read: [T_wg = np.dot(T_wr, T_rg)] decomposed back to [(x, y, theta)]. *)
Definition robot2world (x_wr y_wr theta_wr x_rg y_rg theta_rg : R) : R * R * R :=
  let T_wr := Math.xytheta_to_T x_wr y_wr theta_wr in
  let T_rg := Math.xytheta_to_T x_rg y_rg theta_rg in
  let T_wg := Math.dot3 T_wr T_rg in
  Math.T_to_xytheta T_wg.

Module Turtle.

Import Regulator.

(** Method calls raise Python exceptions and send velocity commands: an
    error monad with the log of the commands passed to [set_robot_speed]. *)
Definition M (A : Type) : Type := ((exn + A) * list twist)%type.

Definition ret {A} (a : A) : M A := (inr a, []).
Definition raise {A} (e : exn) : M A := (inl e, []).
Definition lift {A} (r : exn + A) : M A := (r, []).
Definition bind {A B} (m : M A) (f : A -> M B) : M B :=
  match m with
  | (inl e, l) => (inl e, l)
  | (inr a, l) => let (r, l') := f a in (r, l ++ l')
  end.

Notation "x <- m ;; k" := (bind m (fun x => k))
  (at level 61, m at next level, right associativity).

(** The attributes of the class [PidController] (and of [object], none of
    which matters here). *)
Definition PidController_attrs : list string :=
  ["__init__"; "compute"]%string.

(** The attributes of the class [Turtle]; the instance attributes set by
    [__init__] are [_cfg], [_pub_speed], [_sub_pose], [_time0], [_pose] and
    [_twist]. *)
Definition Turtle_attrs : list string :=
  ["__init__"; "reset_pose"; "set_robot_speed"; "get_robot_pose";
   "reset_time"; "query_time"; "print_state"; "move_a_circle";
   "move_forward"; "move_to_pose"; "move_to_relative_pose";
   "_pose_robot2world"; "_move_robot_to_pose"; "_reset_pose_env_real";
   "_reset_pose_env_sim"; "_callback_sub_pose_env_sim";
   "_callback_sub_pose_env_real"; "_cfg"; "_pub_speed"; "_sub_pose";
   "_time0"; "_pose"; "_twist"]%string.

(** Attribute lookup: [AttributeError] for a missing attribute. *)
Definition getattr (attrs : list string) (name : string) : M unit :=
  if existsb (String.eqb name) attrs then ret tt else raise (AttributeError name).

(** [self._cfg.<name>]: the attributes loaded from the YAML file. *)
Definition cfg_attr (cfg : list (string * R)) (name : string) : M R :=
  match find (fun kv => String.eqb (fst kv) name) cfg with
  | Some (_, r) => ret r
  | None => raise (AttributeError name)
  end.

(** [self.<name>()] for a method reading the pose: the lookup, then the
    pose [p] of the Pose Source ([get_robot_pose] is the attribute of
    [Turtle] that returns it). *)
Definition call_pose_getter (name : string) (p : pose) : M pose :=
  _ <- getattr Turtle_attrs name;; ret p.

(** [Turtle._move_robot_to_pose]; [ticks] as in [Regulator.run]. *)
Definition _move_robot_to_pose (ticks : list (bool * pose))
    (x_goal y_goal : R) (theta_goal : option R) (x_tol y_tol theta_tol : R)
    : M status :=
  _ <- getattr PidController_attrs "set_control_period"%string;;
  let k_rho := nth 0 k_vals 0 in
  let k_alpha := nth 1 k_vals 0 in
  let '(theta_goal, k_beta) :=
    match theta_goal with
    | None => (0, PyInt 0)
    | Some t => (t, PyFloat (nth 2 k_vals 0))
    end in
  pid_rho <- lift (Pid.PidController None (Some (PyFloat k_rho)) (Some (PyInt 0)) None);;
  pid_alpha <- lift (Pid.PidController None (Some (PyFloat k_alpha)) (Some (PyInt 0)) None);;
  pid_beta <- lift (Pid.PidController None (Some k_beta) (Some (PyInt 0)) None);;
  let (tr, s) := run (mkGoal x_goal y_goal theta_goal) (mkTols x_tol y_tol theta_tol)
                     (mkPids pid_rho pid_alpha pid_beta) ticks in
  match s with
  | Raised e => (inl e, tr)
  | _ => (inr s, tr)
  end.

(** [Turtle.move_to_pose]. *)
Definition move_to_pose (cfg : list (string * R)) (ticks : list (bool * pose))
    (x_goal_w y_goal_w : R) (theta_goal_w : option R) : M bool :=
  _ <- getattr Turtle_attrs "_move_robot_to_pose"%string;;
  x_tol <- cfg_attr cfg "x_tol"%string;;
  y_tol <- cfg_attr cfg "y_tol"%string;;
  theta_tol <- cfg_attr cfg "theta_tol"%string;;
  _ <- _move_robot_to_pose ticks x_goal_w y_goal_w theta_goal_w x_tol y_tol theta_tol;;
  ret true.

(** [Turtle._pose_robot2world], [p] the pose of the Pose Source. *)
Definition _pose_robot2world (p : pose) (x_rg y_rg theta_rg : R) : M (R * R * R) :=
  wr <- call_pose_getter "_get_pose"%string p;;
  let '(x_wr, y_wr, theta_wr) := wr in
  ret (robot2world x_wr y_wr theta_wr x_rg y_rg theta_rg).

(** [Turtle.move_to_relative_pose].  The bound method [self._move_to_pose]
    is looked up before its arguments are evaluated; what a call of it
    would do is not modelled, the lookup failing for every [Turtle]. *)
Definition move_to_relative_pose (cfg : list (string * R)) (p : pose)
    (x_goal_r y_goal_r theta_goal_r : R) : M bool :=
  wg <- _pose_robot2world p x_goal_r y_goal_r theta_goal_r;;
  _ <- getattr Turtle_attrs "_move_to_pose"%string;;
  x_tol <- cfg_attr cfg "x_tol"%string;;
  y_tol <- cfg_attr cfg "y_tol"%string;;
  theta_tol <- cfg_attr cfg "theta_tol"%string;;
  ret true.

End Turtle.

(* ------------------------------------------------------------------------- *)
(** ** The other [Turtle] methods *)

(** A value of the YAML configuration. *)
Inductive cfgval :=
| CfgBool (b : bool)
| CfgNum (r : R)
| CfgStr (s : string).

Module TurtleMore.

Import Regulator Turtle.

(** Python truthiness of a configuration value. *)
Definition truthy (v : cfgval) : bool :=
  match v with
  | CfgBool b => b
  | CfgNum r => if Req_EM_T r 0 then false else true
  | CfgStr s => negb (String.eqb s "")
  end.

(** [self._cfg.<name>] on the namespace built by [dict2class]. *)
Definition cfg_get (cfg : list (string * cfgval)) (name : string) : M cfgval :=
  match find (fun kv => String.eqb (fst kv) name) cfg with
  | Some (_, v) => ret v
  | None => raise (AttributeError name)
  end.

(** [Turtle.__init__], from [self._cfg = dict2class(ReadYamlFile(...))] on:
    the publisher topic, the subscriber chosen by [is_in_simulation], then
    [self._reset_time()].  Creating the publisher and subscriber has no
    effect modelled here; nothing after the [_reset_time] lookup is
    modelled, that lookup failing for every [Turtle]. *)
Definition __init__ (cfg : list (string * cfgval)) : M unit :=
  _ <- cfg_get cfg "topic_set_turlte_speed"%string;;
  sim <- cfg_get cfg "is_in_simulation"%string;;
  _ <- (if truthy sim then cfg_get cfg "topic_get_turtle_speed_env_sim"%string
        else cfg_get cfg "topic_get_turtle_speed_env_real"%string);;
  _ <- getattr Turtle_attrs "_reset_time"%string;;
  ret tt.

(** [Turtle._reset_pose_env_real]; [clf_is_sim] stands for
    [self._clf.is_in_simulation].  Publishing on the reset topic is not
    modelled. *)
Definition _reset_pose_env_real (clf_is_sim : bool) : M unit :=
  _ <- getattr Turtle_attrs "_clf"%string;;
  if clf_is_sim
  then raise (RuntimeError "In `simulation` mode, this function shouldn't be called.")
  else ret tt.

(** [Turtle._reset_pose_env_sim]; [set_state] stands for building the
    [ModelState] and the [call_ros_service] call that follow the check. *)
Definition _reset_pose_env_sim (clf_is_sim : bool) (set_state : M unit) : M unit :=
  _ <- getattr Turtle_attrs "_clf"%string;;
  if negb clf_is_sim
  then raise (RuntimeError "In `real robot` mode, this function shouldn't be called.")
  else set_state.

(** [Turtle.reset_pose]; [is_sim] stands for [self._is_in_simulation]. *)
Definition reset_pose (is_sim clf_is_sim : bool) (set_state : M unit) : M unit :=
  _ <- getattr Turtle_attrs "_is_in_simulation"%string;;
  if is_sim then _reset_pose_env_sim clf_is_sim set_state
  else _reset_pose_env_real clf_is_sim.

(** The loop shared by [Turtle.move_a_circle] and [Turtle.move_forward]:
    [while not rospy.is_shutdown(): self._set_twist(v, w); ... =
    self._get_pose(); self._print_state(...); rospy.sleep(0.5)], then
    [return True].  [flags] are the values of [rospy.is_shutdown()];
    [None]: still looping at the end of them. *)
Fixpoint spin_loop (flags : list bool) : M (option bool) :=
  match flags with
  | [] => ret None
  | true :: _ => ret (Some true)
  | false :: rest =>
      _ <- getattr Turtle_attrs "_set_twist"%string;;
      _ <- getattr Turtle_attrs "_get_pose"%string;;
      _ <- getattr Turtle_attrs "_print_state"%string;;
      spin_loop rest
  end.

(** [Turtle.move_a_circle(v, w)] and [Turtle.move_forward(v)]: the
    velocities only reach [self._set_twist]. *)
Definition move_a_circle (flags : list bool) (v w : R) : M (option bool) := spin_loop flags.
Definition move_forward (flags : list bool) (v : R) : M (option bool) := spin_loop flags.

(** The attributes [_pose] and [_twist] that the subscriber callbacks set. *)
Record pose_state {Pose Tw : Type} := mkPoseState { st_pose : Pose; st_twist : Tw }.
Arguments pose_state : clear implicits.

(** Python's [list.index]: the first position. *)
Fixpoint index_of (x : string) (l : list string) : option nat :=
  match l with
  | [] => None
  | y :: l' => if String.eqb x y then Some 0%nat
               else option_map S (index_of x l')
  end.

(** [Turtle._callback_sub_pose_env_sim]; [turtle_name] is
    [self._cfg.turtle_name].  The assignments happen one after the other,
    so an [IndexError] on [model_states.twist[idx]] leaves the new pose. *)
Definition _callback_sub_pose_env_sim {Pose Tw : Type} (turtle_name : string)
    (names : list string) (poses : list Pose) (twists : list Tw)
    (s : pose_state Pose Tw) : (exn + unit) * pose_state Pose Tw :=
  match index_of turtle_name names with
  | None => (inl (ValueError "is not in list"), s)
  | Some idx =>
      match nth_error poses idx with
      | None => (inl (IndexError "list index out of range"), s)
      | Some p =>
          let s1 := mkPoseState Pose Tw p (st_twist s) in
          match nth_error twists idx with
          | None => (inl (IndexError "list index out of range"), s1)
          | Some t => (inr tt, mkPoseState Pose Tw p t)
          end
      end
  end.

End TurtleMore.

(* ------------------------------------------------------------------------- *)
(** * Lemmas *)

(** ** Floor and Python's float [%] *)

Lemma Int_part_unique (z : Z) (r : R) :
  IZR z <= r < IZR z + 1 -> Int_part r = z.
Proof.
  intros [H1 H2]. destruct (base_Int_part r) as [B1 B2].
  assert (Ha : IZR (Int_part r) < IZR (z + 1)) by (rewrite plus_IZR; lra).
  assert (Hb : IZR z < IZR (Int_part r + 1)) by (rewrite plus_IZR; lra).
  apply lt_IZR in Ha. apply lt_IZR in Hb. lia.
Qed.

Lemma Int_part_plus_1 (r : R) : Int_part (r + 1) = (Int_part r + 1)%Z.
Proof.
  apply Int_part_unique. destruct (base_Int_part r) as [B1 B2].
  rewrite plus_IZR. lra.
Qed.

Lemma pymod_range (x m : R) : 0 < m -> 0 <= pymod x m < m.
Proof.
  intros Hm. unfold pymod. destruct (base_Int_part (x / m)) as [B1 B2].
  set (q := x / m) in *. set (k := IZR (Int_part q)) in *.
  assert (Hx : x = m * q) by (unfold q; field; lra).
  split; nra.
Qed.

Lemma pymod_plus_period (x m : R) : 0 < m -> pymod (x + m) m = pymod x m.
Proof.
  intros Hm. unfold pymod.
  replace ((x + m) / m) with (x / m + 1) by (field; lra).
  rewrite Int_part_plus_1, plus_IZR. ring.
Qed.

Lemma PI2_pos : 0 < 2 * PI.
Proof. pose proof PI_RGT_0. lra. Qed.

Lemma pi2pi_PI : Math.pi2pi PI = - PI.
Proof.
  unfold Math.pi2pi, pymod. pose proof PI_RGT_0.
  replace ((PI + PI) / (2 * PI)) with 1 by (field; lra).
  rewrite (Int_part_unique 1 1) by lra. lra.
Qed.

(** ** [math.atan2] on a point of the unit circle *)

Lemma atan2_sin_cos (theta : R) :
  - PI < theta <= PI -> atan2 (sin theta) (cos theta) = theta.
Proof.
  intros [Hlo Hhi]. pose proof PI_RGT_0 as Hpi. unfold atan2.
  destruct (Rtotal_order theta (- (PI / 2))) as [Hq | [Hq | Hq]];
  [| subst theta | destruct (Rtotal_order theta (PI / 2)) as [Hr | [Hr | Hr]]].
  - (* -PI < theta < -PI/2: shifted by PI into (0, PI/2) *)
    assert (Hc : 0 < cos (theta + PI)) by (apply cos_gt_0; lra).
    assert (Hs : 0 < sin (theta + PI)) by (apply sin_gt_0; lra).
    rewrite neg_cos in Hc. rewrite neg_sin in Hs.
    destruct (Rlt_dec 0 (cos theta)); [lra |].
    destruct (Rlt_dec (cos theta) 0); [| lra].
    destruct (Rle_dec 0 (sin theta)); [lra |].
    replace (sin theta / cos theta) with (tan (theta + PI)).
    + rewrite atan_tan; lra.
    + unfold tan. rewrite neg_sin, neg_cos. field. lra.
  - rewrite cos_neg, sin_neg, cos_PI2, sin_PI2.
    repeat (destruct (Rlt_dec _ _); try lra).
  - (* -PI/2 < theta < PI/2 *)
    assert (Hc : 0 < cos theta) by (apply cos_gt_0; lra).
    destruct (Rlt_dec 0 (cos theta)); [| lra].
    fold (tan theta). apply atan_tan. lra.
  - subst theta. rewrite cos_PI2, sin_PI2.
    repeat (destruct (Rlt_dec _ _); try lra).
  - (* PI/2 < theta <= PI: shifted by -PI into (-PI/2, 0] *)
    assert (Hc : cos theta < 0) by (apply cos_lt_0; lra).
    assert (Hs : 0 <= sin theta) by (apply sin_ge_0; lra).
    destruct (Rlt_dec 0 (cos theta)); [lra |].
    destruct (Rlt_dec (cos theta) 0); [| lra].
    destruct (Rle_dec 0 (sin theta)); [| lra].
    replace (sin theta / cos theta) with (tan (theta - PI)).
    + rewrite atan_tan; lra.
    + assert (Hc' : 0 < cos (theta - PI)) by (apply cos_gt_0; lra).
      unfold tan.
      replace theta with ((theta - PI) + PI) at 3 4 by ring.
      rewrite neg_sin, neg_cos. field. lra.
Qed.

(** [sin] and [cos] are [2 pi]-periodic, for whole turns of either sign. *)
Lemma sin_cos_period_Z (x : R) (k : Z) :
  sin (x + 2 * PI * IZR k) = sin x /\ cos (x + 2 * PI * IZR k) = cos x.
Proof.
  destruct k as [| n | n].
  - rewrite Rmult_0_r, Rplus_0_r. split; reflexivity.
  - replace (IZR (Z.pos n)) with (INR (Pos.to_nat n))
      by (rewrite INR_IZR_INZ, positive_nat_Z; reflexivity).
    replace (x + 2 * PI * INR (Pos.to_nat n)) with (x + 2 * INR (Pos.to_nat n) * PI) by ring.
    split; [apply sin_period | apply cos_period].
  - replace (IZR (Z.neg n)) with (- INR (Pos.to_nat n))
      by (rewrite INR_IZR_INZ, positive_nat_Z; reflexivity).
    set (y := x + 2 * PI * - INR (Pos.to_nat n)).
    split; [rewrite <- (sin_period y (Pos.to_nat n)) | rewrite <- (cos_period y (Pos.to_nat n))];
      f_equal; unfold y; ring.
Qed.

(* ------------------------------------------------------------------------- *)
(** * Claims on the geometry utilities *)

(** Claim C6 (as stated, refuted): [normalizeAngle(pi)] is [-pi], which is
    not in the interval [(-pi, pi]]. *)
Lemma pi2pi_range_counterexample :
  Math.pi2pi PI = - PI /\ ~ (- PI < Math.pi2pi PI <= PI).
Proof. split; [exact pi2pi_PI | rewrite pi2pi_PI; lra]. Qed.

(** Claim C6 (amended): for every real [theta], [Math.pi2pi theta], that is
    [(theta + pi) % (2 pi) - pi], lies in the half-open interval
    [[-pi, pi)], and [pi2pi (theta + 2 pi) = pi2pi theta]. *)
Theorem pi2pi_range_periodic (theta : R) :
  - PI <= Math.pi2pi theta < PI /\
  Math.pi2pi (theta + 2 * PI) = Math.pi2pi theta.
Proof.
  unfold Math.pi2pi. pose proof PI2_pos. split.
  - pose proof (pymod_range (theta + PI) (2 * PI) H). lra.
  - replace (theta + 2 * PI + PI) with ((theta + PI) + 2 * PI) by ring.
    rewrite pymod_plus_period by exact H. reflexivity.
Qed.

(** Claim C7 (as stated, refuted): the round trip loses a full turn:
    decomposing the transform of [(0, 0, 2 pi)] gives [(0, 0, 0)]. *)
Lemma xytheta_roundtrip_counterexample :
  Math.T_to_xytheta (Math.xytheta_to_T 0 0 (2 * PI)) = (0, 0, 0) /\
  (0, 0, 0) <> (0, 0, 2 * PI).
Proof.
  pose proof PI_RGT_0. split.
  - unfold Math.T_to_xytheta, Math.xytheta_to_T, atan2. simpl.
    rewrite cos_2PI, sin_2PI.
    destruct (Rlt_dec 0 1); [| lra].
    replace (0 / 1) with 0 by field. rewrite atan_0. reflexivity.
  - intro He. injection He. lra.
Qed.

(** Claim C7 (amended): for every [(x, y, theta)], decomposing
    [xytheta_to_T x y theta] gives back [x] and [y] exactly, and the angle
    [atan2(sin theta, cos theta)], which is [theta + 2 pi k] for the integer
    [k] putting it in [(-pi, pi]]; for [theta] already in [(-pi, pi]],
    [k = 0] and the round trip is exact. *)
Theorem xytheta_roundtrip (x y theta : R) :
  Math.T_to_xytheta (Math.xytheta_to_T x y theta) = (x, y, atan2 (sin theta) (cos theta)) /\
  (exists k : Z,
     atan2 (sin theta) (cos theta) = theta + 2 * PI * IZR k /\
     - PI < theta + 2 * PI * IZR k <= PI /\
     (- PI < theta <= PI -> k = 0%Z)).
Proof.
  split; [reflexivity |].
  pose proof PI_RGT_0 as Hpi.
  set (q := (- theta + PI) / (2 * PI)).
  assert (Hq : - theta + PI = 2 * PI * q) by (unfold q; field; lra).
  destruct (base_Int_part q) as [B1 B2].
  set (k := Int_part q) in *.
  assert (Hr : - PI < theta + 2 * PI * IZR k <= PI) by (split; nra).
  exists k. split; [| split; [exact Hr |]].
  - destruct (sin_cos_period_Z theta k) as [Hs Hc].
    rewrite <- Hs, <- Hc. apply atan2_sin_cos. exact Hr.
  - intros Ht.
    assert (H1 : IZR k < 1) by nra. assert (H2 : -1 < IZR k) by nra.
    apply lt_IZR in H1. apply lt_IZR in H2. lia.
Qed.

(** Claim C8 (code bug): [_pose_robot2world] never returns a world goal:
    it raises [AttributeError] on [self._get_pose()] ([Turtle] has
    [get_robot_pose]), before any command is sent.  The composition it
    would perform, [robot2world], does resolve robot pose [(1, 1, pi/2)]
    and relative goal [(1, 0, 0)] to [(1, 2, pi/2)]. *)
Theorem pose_robot2world_raises (p : Regulator.pose) (x_rg y_rg theta_rg : R) :
  Turtle._pose_robot2world p x_rg y_rg theta_rg
    = (inl (AttributeError "_get_pose"), []) /\
  robot2world 1 1 (PI / 2) 1 0 0 = (1, 2, PI / 2).
Proof.
  split.
  - reflexivity.
  - unfold robot2world, Math.T_to_xytheta, Math.dot3, Math.xytheta_to_T. simpl.
    rewrite cos_PI2, sin_PI2, cos_0, sin_0. unfold atan2.
    replace (0 * 1 + - (1) * 0 + 1 * 0) with 0 by ring.
    replace (1 * 1 + 0 * 0 + 1 * 0) with 1 by ring.
    replace (0 * 1 + - (1) * 0 + 1 * 1) with 1 by ring.
    replace (1 * 1 + 0 * 0 + 1 * 1) with 2 by ring.
    repeat (destruct (Rlt_dec _ _); try lra). reflexivity.
Qed.

(* ------------------------------------------------------------------------- *)
(** * Claims on the [Turtle] entry points *)

Lemma cfg_attr_cases (cfg : list (string * R)) (name : string) :
  Turtle.cfg_attr cfg name = (inl (AttributeError name), []) \/
  exists r, Turtle.cfg_attr cfg name = (inr r, []).
Proof.
  unfold Turtle.cfg_attr.
  destruct (find _ cfg) as [[k r] |]; [right; exists r |left]; reflexivity.
Qed.

Lemma move_robot_to_pose_raises ticks x_goal y_goal theta_goal x_tol y_tol theta_tol :
  Turtle._move_robot_to_pose ticks x_goal y_goal theta_goal x_tol y_tol theta_tol
    = (inl (AttributeError "set_control_period"), []).
Proof. reflexivity. Qed.

(** Claim C4: for every goal, configuration and pose feed, [move_to_pose]
    and [move_to_relative_pose] raise before sending any velocity command:
    [_move_robot_to_pose] looks up the missing [PidController.set_control_period];
    the [PidController(P=k, I=0)] calls it would make next omit [T]
    ([TypeError]) and, even with [T], pass [int] gains that fail the type
    check ([RuntimeError]); [_pose_robot2world] looks up the missing
    [self._get_pose]; and [self._move_to_pose] is missing as well. *)
Theorem entry_points_raise :
  (forall cfg ticks x_goal_w y_goal_w theta_goal_w,
      exists e, Turtle.move_to_pose cfg ticks x_goal_w y_goal_w theta_goal_w = (inl e, [])) /\
  (forall cfg p x_goal_r y_goal_r theta_goal_r,
      Turtle.move_to_relative_pose cfg p x_goal_r y_goal_r theta_goal_r
        = (inl (AttributeError "_get_pose"), [])) /\
  Turtle.getattr Turtle.PidController_attrs "set_control_period"
    = (inl (AttributeError "set_control_period"), []) /\
  (forall k, exists msg,
      Pid.PidController None (Some (PyFloat k)) (Some (PyInt 0)) None = inl (TypeError msg)) /\
  (forall T k, exists msg,
      Pid.PidController (Some T) (Some (PyFloat k)) (Some (PyInt 0)) None = inl (RuntimeError msg)) /\
  Turtle.getattr Turtle.Turtle_attrs "_get_pose" = (inl (AttributeError "_get_pose"), []) /\
  Turtle.getattr Turtle.Turtle_attrs "_move_to_pose" = (inl (AttributeError "_move_to_pose"), []).
Proof.
  split; [| split; [| split; [| split; [| split]]]];
    try (intros; eexists; reflexivity); try reflexivity.
  intros cfg ticks xg yg tg. unfold Turtle.move_to_pose. simpl.
  destruct (cfg_attr_cases cfg "x_tol") as [-> | [xt ->]]; [eexists; reflexivity |]. simpl.
  destruct (cfg_attr_cases cfg "y_tol") as [-> | [yt ->]]; [eexists; reflexivity |]. simpl.
  destruct (cfg_attr_cases cfg "theta_tol") as [-> | [tt ->]]; [eexists; reflexivity |]. simpl.
  eexists. reflexivity.
Qed.

(* ------------------------------------------------------------------------- *)
(** * Claims on [PidController.__init__] *)

Lemma zeros_plus_array_ok (n : nat) (v : list R) :
  List.length v = n \/ n = 1%nat \/ List.length v = 1%nat ->
  exists w, Np.zeros_plus n (PyArray v) = inr w.
Proof.
  intros H. unfold Np.zeros_plus.
  destruct (Nat.eqb_spec (List.length v) n); [eexists; reflexivity |].
  destruct (Nat.eqb_spec n 1); [eexists; reflexivity |].
  destruct (Nat.eqb_spec (List.length v) 1); [eexists; reflexivity |].
  exfalso. tauto.
Qed.

Lemma zeros_plus_array_err (n : nat) (v : list R) :
  List.length v <> n -> n <> 1%nat -> List.length v <> 1%nat ->
  Np.zeros_plus n (PyArray v) = inl (ValueError "operands could not be broadcast together").
Proof.
  intros H1 H2 H3. unfold Np.zeros_plus.
  destruct (Nat.eqb_spec (List.length v) n); [contradiction |].
  destruct (Nat.eqb_spec n 1); [contradiction |].
  destruct (Nat.eqb_spec (List.length v) 1); [contradiction | reflexivity].
Qed.

Lemma zeros_plus_same (v : list R) :
  Np.zeros_plus (List.length v) (PyArray v) = inr v.
Proof. unfold Np.zeros_plus. rewrite Nat.eqb_refl. reflexivity. Qed.

Lemma zeros_plus_not_runtime (n : nat) (g : pyval) (msg : string) :
  Np.zeros_plus n g <> inl (RuntimeError msg).
Proof.
  destruct g; unfold Np.zeros_plus; try discriminate.
  repeat (destruct (Nat.eqb _ _)); discriminate.
Qed.

(** [PidController(T, P, I, D)] raises [RuntimeError] at construction
    exactly when the gains are neither all Python floats nor all numpy
    arrays.  All floats build one-element gains and zero accumulators
    [zeros(1)].  All arrays, with [n = len(P)], build zero accumulators
    [zeros(n)]; construction succeeds exactly when [n = 1] or each of [I],
    [D] has length [n] or [1] (numpy broadcasting), and otherwise fails
    with numpy's [ValueError]; with equal lengths the gains are kept as
    given. *)
Theorem PidController_construction (T : R) :
  (forall P I D,
      (exists msg, Pid.PidController (Some T) (Some P) (Some I) (Some D)
                   = inl (RuntimeError msg)) <->
      (forallb Pid.is_float [P; I; D] = false /\
       forallb Pid.is_ndarray [P; I; D] = false)) /\
  (forall p i d,
      Pid.PidController (Some T) (Some (PyFloat p)) (Some (PyFloat i)) (Some (PyFloat d))
      = inr (Pid.mkPid T [p] [i] [d] [0] (NVec [0]))) /\
  (forall vp vi vd,
      (exists c, Pid.PidController (Some T) (Some (PyArray vp)) (Some (PyArray vi))
                   (Some (PyArray vd)) = inr c) <->
      (List.length vp = 1%nat \/
       ((List.length vi = List.length vp \/ List.length vi = 1%nat) /\
        (List.length vd = List.length vp \/ List.length vd = 1%nat)))) /\
  (forall vp vi vd,
      (exists c, Pid.PidController (Some T) (Some (PyArray vp)) (Some (PyArray vi))
                   (Some (PyArray vd)) = inr c /\
                 Pid._P c = vp /\
                 Pid._err_inte c = repeat 0 (List.length vp) /\
                 Pid._err_prev c = NVec (repeat 0 (List.length vp))) \/
      (exists msg, Pid.PidController (Some T) (Some (PyArray vp)) (Some (PyArray vi))
                     (Some (PyArray vd)) = inl (ValueError msg))) /\
  (forall vp vi vd,
      List.length vi = List.length vp /\ List.length vd = List.length vp ->
      Pid.PidController (Some T) (Some (PyArray vp)) (Some (PyArray vi)) (Some (PyArray vd))
      = inr (Pid.mkPid T vp vi vd (repeat 0 (List.length vp))
               (NVec (repeat 0 (List.length vp))))).
Proof.
  split; [| split; [| split; [| split]]].
  - intros P I D. split.
    + intros [msg H]. unfold Pid.PidController in H. cbv beta iota zeta in H.
      destruct (forallb Pid.is_float [P; I; D]), (forallb Pid.is_ndarray [P; I; D]);
        cbn [andb negb] in H; try (split; reflexivity); exfalso; revert H;
        repeat match goal with
               | |- context [Np.zeros_plus ?n ?g] => destruct (Np.zeros_plus n g) eqn:?
               end; intros H; try discriminate;
        injection H as ->; eapply zeros_plus_not_runtime; eassumption.
    + intros [H1 H2]. unfold Pid.PidController. rewrite H1, H2. simpl.
      eexists. reflexivity.
  - intros p i d. reflexivity.
  - intros vp vi vd. unfold Pid.PidController. cbn [forallb Pid.is_float Pid.is_ndarray andb negb]. rewrite zeros_plus_same.
    split.
    + intros [c Hc].
      destruct (Nat.eq_dec (List.length vp) 1) as [E | E]; [left; exact E | right].
      split.
      * destruct (Nat.eq_dec (List.length vi) (List.length vp)); [left; auto |].
        destruct (Nat.eq_dec (List.length vi) 1); [right; auto |].
        rewrite zeros_plus_array_err in Hc by assumption. discriminate.
      * destruct (Nat.eq_dec (List.length vd) (List.length vp)); [left; auto |].
        destruct (Nat.eq_dec (List.length vd) 1); [right; auto |].
        destruct (Np.zeros_plus _ (PyArray vi)); [discriminate |].
        rewrite zeros_plus_array_err in Hc by assumption. discriminate.
    + intros H.
      destruct (zeros_plus_array_ok (List.length vp) vi) as [wi Hi]; [tauto |].
      destruct (zeros_plus_array_ok (List.length vp) vd) as [wd Hd]; [tauto |].
      rewrite Hi, Hd. eexists. reflexivity.
  - intros vp vi vd. unfold Pid.PidController. cbn [forallb Pid.is_float Pid.is_ndarray andb negb]. rewrite zeros_plus_same.
    destruct (Np.zeros_plus _ (PyArray vi)) as [e | wi] eqn:Hi.
    + right. unfold Np.zeros_plus in Hi.
      repeat (destruct (Nat.eqb _ _)); try discriminate.
      injection Hi as <-. eexists. reflexivity.
    + destruct (Np.zeros_plus _ (PyArray vd)) as [e | wd] eqn:Hd.
      * right. unfold Np.zeros_plus in Hd.
        repeat (destruct (Nat.eqb _ _)); try discriminate.
        injection Hd as <-. eexists. reflexivity.
      * left. eexists. split; [reflexivity | repeat split].
  - intros vp vi vd [Hi Hd]. unfold Pid.PidController. cbn [forallb Pid.is_float Pid.is_ndarray andb negb].
    rewrite zeros_plus_same.
    rewrite <- Hi at 1. rewrite zeros_plus_same.
    rewrite <- Hd at 1. rewrite zeros_plus_same. reflexivity.
Qed.

(** Claim C9 (code bug): scalar gains are not all accepted.  The type
    check takes only Python [float]s as scalars, so any [int] gain among
    scalar gains raises the configuration error ([RuntimeError]) at
    construction; this includes the constructor's own defaults
    [P=0, I=0, D=0] and the form [PidController(P=k, I=0)] of its caller in
    [_move_robot_to_pose], while the same gains given as floats build the
    controller. *)
Theorem PidController_int_gains_rejected (T : R) :
  (forall P I D : pyval,
     forallb (fun g => match g with PyFloat _ | PyInt _ => true | _ => false end) [P; I; D]
       = true ->
     forallb Pid.is_float [P; I; D] = false ->
     Pid.PidController (Some T) (Some P) (Some I) (Some D)
     = inl (RuntimeError "PidController: Data type of P,I,D coefficient is wrong.")) /\
  Pid.PidController (Some T) None None None
    = inl (RuntimeError "PidController: Data type of P,I,D coefficient is wrong.") /\
  (forall k : R,
     Pid.PidController (Some T) (Some (PyFloat k)) (Some (PyInt 0)) None
     = inl (RuntimeError "PidController: Data type of P,I,D coefficient is wrong.") /\
     Pid.PidController (Some T) (Some (PyFloat k)) (Some (PyFloat 0)) (Some (PyFloat 0))
     = inr (Pid.mkPid T [k] [0] [0] [0] (NVec [0]))).
Proof.
  split; [| split; [reflexivity | intros k; split; reflexivity]].
  intros P I D Hs Hf.
  destruct P, I, D; simpl in Hs, Hf; try discriminate; reflexivity.
Qed.

(* ------------------------------------------------------------------------- *)
(** * Claims on [PidController.compute] *)

Section PidCompute.

Variables (T p i d : R).

(** One call on a controller with float gains and a scalar error. *)
Lemma compute_scalar_step (s e0 e : R) (prev : nval) :
  prev = NScal e0 \/ prev = NVec [e0] ->
  exists r,
    Pid.compute (Pid.mkPid T [p] [i] [d] [s] prev) (NScal e)
      = (Pid.mkPid T [p] [i] [d] [s + e] (NScal e), Some (NVec [r])) /\
    r = e * p + T * ((s + e) * i) + (e - e0) * d / T.
Proof.
  intros [-> | ->]; eexists; (split; [reflexivity |]); simpl; unfold Np.sum; simpl;
    unfold Rdiv; ring.
Qed.

Lemma fold_left_Rplus (l : list R) (a : R) : fold_left Rplus l a = a + Np.sum l.
Proof.
  revert a. induction l as [| x l IH]; intros a; simpl; [unfold Np.sum; simpl; ring |].
  rewrite IH. unfold Np.sum. simpl. ring.
Qed.

Lemma sum_app_single (l : list R) (e : R) : Np.sum (l ++ [e]) = Np.sum l + e.
Proof.
  unfold Np.sum. rewrite fold_right_app. simpl.
  induction l as [| x l IH]; simpl; [ring | rewrite IH; ring].
Qed.

(** Successive calls with scalar errors [es] on a controller with float
    gains. *)
Lemma compute_all_scalar (es : list R) (s e0 : R) (prev : nval) :
  prev = NScal e0 \/ prev = NVec [e0] ->
  fst (Pid.compute_all (Pid.mkPid T [p] [i] [d] [s] prev) (map NScal es))
  = Pid.mkPid T [p] [i] [d] [fold_left Rplus es s]
      (match es with [] => prev | _ => NScal (last es 0) end).
Proof.
  revert s e0 prev. induction es as [| e es IH]; intros s e0 prev Hprev; [reflexivity |].
  destruct (compute_scalar_step s e0 e prev Hprev) as [r [Hc _]].
  simpl. rewrite Hc.
  destruct (Pid.compute_all _ (map NScal es)) as [c'' outs] eqn:E.
  specialize (IH (s + e) e (NScal e) (or_introl eq_refl)).
  rewrite E in IH. simpl in IH |- *. rewrite IH.
  destruct es; reflexivity.
Qed.

End PidCompute.

Lemma zip_with_length (f : R -> R -> R) (u v : list R) :
  List.length (Np.zip_with f u v) = Nat.min (List.length u) (List.length v).
Proof.
  revert v. induction u as [| x u IH]; intros [| y v]; simpl; auto.
Qed.

Ltac lengths_eqb :=
  repeat match goal with
         | |- context [Nat.eqb ?a ?b] =>
             replace (Nat.eqb a b) with true
               by (symmetry; apply Nat.eqb_eq; rewrite ?zip_with_length; lia)
         end.

(** One call with a vector error on a controller whose gains, accumulator
    and previous error all have the error's length. *)
Lemma compute_vector_step (T : R) (P I D inte pv e : list R) (n : nat) :
  List.length P = n -> List.length I = n -> List.length D = n ->
  List.length inte = n -> List.length pv = n -> List.length e = n ->
  Pid.compute (Pid.mkPid T P I D inte (NVec pv)) (NVec e)
  = (Pid.mkPid T P I D (Np.zip_with Rplus inte e) (NVec e),
     Some (NScal (0 + Np.sum (Np.zip_with Rmult e P)
                  + T * Np.sum (Np.zip_with Rmult (Np.zip_with Rplus inte e) I)
                  + Np.sum (Np.zip_with Rmult (Np.zip_with Rminus e pv) D) / T))).
Proof.
  intros HP HI HD Hi Hp He.
  unfold Pid.compute, Np.dot, Np.iadd, Np.iadd_arr, Np.bcast2. simpl.
  lengths_eqb. reflexivity.
Qed.

Lemma last_default {A : Type} (l : list A) (a b : A) : l <> [] -> last l a = last l b.
Proof.
  induction l as [| x l IH]; intros H; [congruence |].
  destruct l; [reflexivity | apply IH; discriminate].
Qed.

Lemma fold_zip_length (es : list (list R)) (acc : list R) (n : nat) :
  Forall (fun e => List.length e = n) es -> List.length acc = n ->
  List.length (fold_left (Np.zip_with Rplus) es acc) = n.
Proof.
  revert acc. induction es as [| e es IH]; intros acc Hes Hacc; simpl; [exact Hacc |].
  inversion Hes; subst. apply IH; [assumption |]. rewrite zip_with_length. lia.
Qed.

(** Successive calls with vector errors [es]. *)
Lemma compute_all_vector (T : R) (P I D inte pv : list R) (es : list (list R)) (n : nat) :
  List.length P = n -> List.length I = n -> List.length D = n ->
  List.length inte = n -> List.length pv = n ->
  Forall (fun e => List.length e = n) es ->
  fst (Pid.compute_all (Pid.mkPid T P I D inte (NVec pv)) (map NVec es))
  = Pid.mkPid T P I D (fold_left (Np.zip_with Rplus) es inte) (NVec (last es pv)).
Proof.
  intros HP HI HD. revert inte pv.
  induction es as [| e es IH]; intros inte pv Hi Hp Hes; [reflexivity |].
  inversion Hes as [| ? ? He Hes']; subst.
  simpl. rewrite (compute_vector_step T P I D inte pv e (List.length P)) by auto.
  destruct (Pid.compute_all _ (map NVec es)) as [c'' outs] eqn:E.
  specialize (IH (Np.zip_with Rplus inte e) e).
  rewrite E in IH. simpl in IH |- *. rewrite IH by (rewrite ?zip_with_length; auto; lia).
  destruct es as [| e' es'']; [reflexivity |].
  f_equal. f_equal. apply last_default. discriminate.
Qed.

Lemma last_Forall {A : Type} (Q : A -> Prop) (l : list A) (a : A) :
  Forall Q l -> Q a -> Q (last l a).
Proof.
  intros Hl Ha. induction Hl as [| x l Hx Hl IH]; [exact Ha |].
  destruct l; [exact Hx | exact IH].
Qed.

(** Claim C5 (as stated, refuted): the result does not match the shape of
    the error.  For the controller [PidController(0.05, P=0.5, I=0.0, D=0.0)]
    a scalar error gives a one-element array, and for the controller built
    from length-2 arrays a length-2 error gives a scalar. *)
Lemma compute_shape_counterexample :
  match snd (Pid.compute (Pid.mkPid 0.05 [0.5] [0] [0] [0] (NVec [0])) (NScal 1)) with
  | Some (NVec [_]) => True
  | _ => False
  end /\
  match snd (Pid.compute (Pid.mkPid 0.05 [0.5; 0.5] [0; 0] [0; 0] [0; 0] (NVec [0; 0]))
               (NVec [1; 1])) with
  | Some (NScal _) => True
  | _ => False
  end.
Proof. split; simpl; exact I. Qed.

(** Claim C5 (amended): the [n]-th call [compute(e_n)], after
    [compute(e_1)], ..., [compute(e_{n-1})] on a fresh controller, returns
    [dot(e_n, P) + T * dot(e_1 + ... + e_n, I) + dot(e_n - e_{n-1}, D) / T]
    with [e_0 = 0], sets the integral accumulator to [e_1 + ... + e_n] and
    the previous error to [e_n].  With float gains and scalar errors the
    result is a one-element array [[r]] (the caller takes [[0]]); with
    gains of length [n] and errors of length [n] it is a scalar (each
    [dot] is an inner product). *)
Theorem compute_nth_call :
  (forall (T p i d : R) (es : list R) (e : R),
     let c := fst (Pid.compute_all (Pid.mkPid T [p] [i] [d] [0] (NVec [0])) (map NScal es)) in
     exists r,
       Pid.compute c (NScal e)
         = (Pid.mkPid T [p] [i] [d] [Np.sum (es ++ [e])] (NScal e), Some (NVec [r])) /\
       r = e * p + T * (Np.sum (es ++ [e]) * i) + (e - last es 0) * d / T) /\
  (forall (T : R) (P I D : list R) (es : list (list R)) (e : list R),
     let n := List.length P in
     List.length I = n -> List.length D = n ->
     Forall (fun e => List.length e = n) es -> List.length e = n ->
     let c := fst (Pid.compute_all (Pid.mkPid T P I D (repeat 0 n) (NVec (repeat 0 n)))
                     (map NVec es)) in
     let S := fold_left (Np.zip_with Rplus) (es ++ [e]) (repeat 0 n) in
     Pid.compute c (NVec e)
       = (Pid.mkPid T P I D S (NVec e),
          Some (NScal (0 + Np.sum (Np.zip_with Rmult e P)
                       + T * Np.sum (Np.zip_with Rmult S I)
                       + Np.sum (Np.zip_with Rmult
                                   (Np.zip_with Rminus e (last es (repeat 0 n))) D) / T)))).
Proof.
  split.
  - intros T p i d es e. cbv zeta.
    rewrite (compute_all_scalar T p i d es 0 0 (NVec [0])) by (right; reflexivity).
    destruct (compute_scalar_step T p i d (fold_left Rplus es 0) (last es 0) e
                (match es with [] => NVec [0] | _ => NScal (last es 0) end))
      as [r [Hc Hr]]; [destruct es; [right | left]; reflexivity |].
    replace (fold_left Rplus es 0 + e) with (Np.sum (es ++ [e])) in Hc, Hr
      by (rewrite fold_left_Rplus, sum_app_single; ring).
    exists r. split; assumption.
  - cbv zeta. intros T P I D es e HI HD Hes He.
    assert (Hz : List.length (repeat 0 (List.length P)) = List.length P)
      by apply repeat_length.
    rewrite (compute_all_vector T P I D _ _ es (List.length P)) by auto.
    rewrite (compute_vector_step T P I D _ _ e (List.length P)); auto.
    + rewrite fold_left_app. reflexivity.
    + apply fold_zip_length; auto.
    + apply (last_Forall (fun e => List.length e = List.length P)); auto.
Qed.

Lemma compute_keeps_params (c : Pid.pid) (e : nval) :
  let c' := fst (Pid.compute c e) in
  Pid._T c' = Pid._T c /\ Pid._P c' = Pid._P c /\
  Pid._I c' = Pid._I c /\ Pid._D c' = Pid._D c.
Proof.
  cbv zeta. unfold Pid.compute.
  repeat match goal with
         | |- context [match ?x with _ => _ end] => destruct x
         end; simpl; auto.
Qed.

(** Claim C10: [compute] changes only [_err_inte] and [_err_prev]: the
    period [_T] and the gains [_P], [_I], [_D] are the same after one call
    and after any sequence of calls; and the outputs of a sequence of calls
    are determined by the error sequence and the controller's attributes. *)
Theorem compute_frame :
  (forall c e,
     let c' := fst (Pid.compute c e) in
     Pid._T c' = Pid._T c /\ Pid._P c' = Pid._P c /\
     Pid._I c' = Pid._I c /\ Pid._D c' = Pid._D c) /\
  (forall c es,
     let c' := fst (Pid.compute_all c es) in
     Pid._T c' = Pid._T c /\ Pid._P c' = Pid._P c /\
     Pid._I c' = Pid._I c /\ Pid._D c' = Pid._D c) /\
  (forall c1 c2 es1 es2,
     Pid._T c1 = Pid._T c2 -> Pid._P c1 = Pid._P c2 -> Pid._I c1 = Pid._I c2 ->
     Pid._D c1 = Pid._D c2 -> Pid._err_inte c1 = Pid._err_inte c2 ->
     Pid._err_prev c1 = Pid._err_prev c2 -> es1 = es2 ->
     Pid.compute_all c1 es1 = Pid.compute_all c2 es2).
Proof.
  split; [exact compute_keeps_params | split].
  - intros c es. cbv zeta. revert c.
    induction es as [| e es IH]; intros c; simpl; [auto |].
    pose proof (compute_keeps_params c e) as Hk. cbv zeta in Hk.
    destruct (Pid.compute c e) as [c' out]. simpl in Hk.
    destruct out as [o |]; simpl; [| exact Hk].
    specialize (IH c').
    destruct (Pid.compute_all c' es) as [c'' outs]. simpl in IH |- *.
    destruct Hk as (? & ? & ? & ?), IH as (? & ? & ? & ?).
    repeat split; congruence.
  - intros [] [] es1 es2; simpl; intros; subst; reflexivity.
Qed.

(* ------------------------------------------------------------------------- *)
(** * Claims on the control loop *)

Module RegulatorFacts.

Import Regulator.

Lemma compute_index_scalar (c : Pid.pid) (e : R) :
  Pid.scalar_pid c ->
  exists c' r, compute_index c e = (c', inr r) /\ Pid.scalar_pid c' /\
               Pid._err_prev c' = NScal e.
Proof.
  intros (T & p & i & d & s & e0 & Hc).
  assert (Hprev : exists prev, c = Pid.mkPid T [p] [i] [d] [s] prev /\
                               (prev = NScal e0 \/ prev = NVec [e0]))
    by (destruct Hc; eexists; split; eauto).
  destruct Hprev as [prev [-> Hprev]].
  destruct (compute_scalar_step T p i d s e0 e prev Hprev) as [r [Hcomp _]].
  unfold compute_index. rewrite Hcomp.
  do 2 eexists. split; [reflexivity | split; [| reflexivity]].
  exists T, p, i, d, (s + e), e. left. reflexivity.
Qed.

Lemma saturate_abs (lo hi x : R) :
  0 <= lo -> Rabs (saturate lo hi x) = Rmax lo (Rmin (Rabs x) hi).
Proof.
  intros Hlo. unfold saturate.
  assert (H0 : 0 <= Rmax lo (Rmin (Rabs x) hi))
    by (eapply Rle_trans; [exact Hlo | apply Rmax_l]).
  destruct (Rlt_dec 0 x).
  - rewrite Rmult_1_r. apply Rabs_right. lra.
  - rewrite Rabs_mult. replace (Rabs (-1)) with 1 by (rewrite Rabs_left; lra).
    rewrite Rmult_1_r. apply Rabs_right. lra.
Qed.

Lemma saturate_bounds (lo hi x : R) :
  0 <= lo <= hi -> lo <= Rabs (saturate lo hi x) <= hi.
Proof.
  intros [Hlo Hhi]. rewrite saturate_abs by exact Hlo.
  split; [apply Rmax_l |].
  apply Rmax_lub; [exact Hhi | apply Rmin_r].
Qed.

Lemma saturate_sign (hi x : R) :
  0 < hi ->
  (0 < x -> 0 < saturate 0 hi x) /\ (x < 0 -> saturate 0 hi x < 0) /\
  (x = 0 -> saturate 0 hi x = 0).
Proof.
  intros Hhi. unfold saturate.
  assert (Hm : 0 < Rabs x -> 0 < Rmax 0 (Rmin (Rabs x) hi)).
  { intros Hx. eapply Rlt_le_trans; [| apply Rmax_r].
    unfold Rmin. destruct (Rle_dec (Rabs x) hi); lra. }
  split; [| split]; intros Hx.
  - destruct (Rlt_dec 0 x); [| lra]. rewrite Rmult_1_r. apply Hm.
    rewrite Rabs_right; lra.
  - destruct (Rlt_dec 0 x); [lra |].
    assert (0 < Rmax 0 (Rmin (Rabs x) hi)) by (apply Hm; rewrite Rabs_left; lra).
    lra.
  - subst x. destruct (Rlt_dec 0 0); [lra |].
    rewrite Rabs_R0. unfold Rmin, Rmax.
    destruct (Rle_dec 0 hi); destruct (Rle_dec 0 0); lra.
Qed.

Lemma tick_ok (g : goal) (tl : tols) (c : pids) (p : pose) :
  pids_ok c ->
  exists cmd c', tick g tl c p = inr (cmd, c', stop_condition g tl p) /\ pids_ok c'.
Proof.
  intros (Hr & Ha & Hb). unfold tick.
  destruct (errors g p) as [[rho alpha0] beta0].
  destruct (check_direction alpha0 beta0) as [[sign alpha] beta].
  destruct (compute_index_scalar _ rho Hr) as (cr & vr & Er & Okr & _). rewrite Er.
  destruct (compute_index_scalar _ alpha Ha) as (ca & va & Ea & Oka & _). rewrite Ea.
  destruct (compute_index_scalar _ beta Hb) as (cb & vb & Eb & Okb & _). rewrite Eb.
  do 2 eexists. split; [reflexivity |]. split; [| split]; assumption.
Qed.

Lemma tick_saturated (g : goal) (tl : tols) (c : pids) (p : pose) cmd c' stop :
  tick g tl c p = inr (cmd, c', stop) ->
  exists v0 w0, cmd = (saturate MIN_V MAX_V v0, saturate MIN_W MAX_W w0).
Proof.
  unfold tick.
  destruct (errors g p) as [[rho alpha0] beta0].
  destruct (check_direction alpha0 beta0) as [[sign alpha] beta].
  destruct (compute_index (pid_rho c) rho) as [cr [e | vr]]; [discriminate |].
  destruct (compute_index (pid_alpha c) alpha) as [ca [e | va]]; [discriminate |].
  destruct (compute_index (pid_beta c) beta) as [cb [e | vb]]; [discriminate |].
  intros H. injection H as <- _ _. do 2 eexists. reflexivity.
Qed.

Lemma run_step (g : goal) (tl : tols) (c : pids) (p : pose) rest :
  pids_ok c ->
  exists cmd c',
    tick g tl c p = inr (cmd, c', stop_condition g tl p) /\ pids_ok c' /\
    run g tl c ((false, p) :: rest)
    = if stop_condition g tl p then ([cmd; (0, 0)], Reached)
      else (cmd :: fst (run g tl c' rest), snd (run g tl c' rest)).
Proof.
  intros Hok. destruct (tick_ok g tl c p Hok) as (cmd & c' & Ht & Hok').
  exists cmd, c'. split; [exact Ht | split; [exact Hok' |]].
  simpl. rewrite Ht. destruct (stop_condition g tl p); [reflexivity |].
  destruct (run g tl c' rest); reflexivity.
Qed.

End RegulatorFacts.

Import Regulator RegulatorFacts.

(** Claim C2: the stop check is [|x - x_goal| < x_tol and |y - y_goal| <
    y_tol and |theta - theta_goal| < theta_tol] on the pose read in the
    tick (absolute differences, [theta] not renormalised; [theta_goal] is
    [0] when no heading was requested).  A tick of the loop with float-gain
    controllers never raises; when the check holds, the loop breaks after
    the tick's command and sends [(0, 0)]; otherwise it goes on.  So with no
    shutdown, the loop ends [Reached] at the first pose meeting the check,
    the last command being [(0, 0)]. *)
Theorem loop_stop_condition :
  (forall g tl x y theta,
     stop_condition g tl (x, y, theta) = true <->
     Rabs (x - x_goal g) < x_tol tl /\ Rabs (y - y_goal g) < y_tol tl /\
     Rabs (theta - theta_goal g) < theta_tol tl) /\
  (forall g tl c p rest,
     pids_ok c ->
     exists cmd c',
       tick g tl c p = inr (cmd, c', stop_condition g tl p) /\
       run g tl c ((false, p) :: rest)
       = if stop_condition g tl p then ([cmd; (0, 0)], Reached)
         else (cmd :: fst (run g tl c' rest), snd (run g tl c' rest))) /\
  (forall g tl c pre p post,
     pids_ok c ->
     Forall (fun q => stop_condition g tl q = false) pre ->
     stop_condition g tl p = true ->
     exists cmds,
       run g tl c (map (pair false) (pre ++ p :: post)) = (cmds ++ [(0, 0)], Reached) /\
       List.length cmds = S (List.length pre)).
Proof.
  split; [| split].
  - intros g tl x y theta. unfold stop_condition, Rltb.
    destruct (Rlt_dec (Rabs (x - x_goal g)) (x_tol tl));
    destruct (Rlt_dec (Rabs (y - y_goal g)) (y_tol tl));
    destruct (Rlt_dec (Rabs (theta - theta_goal g)) (theta_tol tl));
    simpl; split; intros H; try discriminate; try tauto; reflexivity.
  - intros g tl c p rest Hok.
    destruct (run_step g tl c p rest Hok) as (cmd & c' & Ht & _ & Hr).
    exists cmd, c'. split; assumption.
  - intros g tl c pre p post Hok Hpre Hp. revert c Hok.
    induction Hpre as [| q pre Hq Hpre IH]; intros c Hok.
    + destruct (run_step g tl c p (map (pair false) post) Hok) as (cmd & c' & _ & _ & Hr).
      rewrite Hp in Hr. exists [cmd]. simpl in Hr |- *. rewrite Hr. split; reflexivity.
    + destruct (run_step g tl c q (map (pair false) (pre ++ p :: post)) Hok)
        as (cmd & c' & _ & Hok' & Hr).
      rewrite Hq in Hr.
      destruct (IH c' Hok') as (cmds & Hrun & Hlen).
      exists (cmd :: cmds). simpl. simpl in Hr. rewrite Hr, Hrun.
      split; [reflexivity | simpl; rewrite Hlen; reflexivity].
Qed.

(** Claim C3: every command the loop sends, the final [(0, 0)] included,
    has [MIN_V <= |v| <= MAX_V] and [MIN_W <= |w| <= MAX_W]; a tick's
    command is the saturation of its pre-saturation values, whose
    magnitude is [max(MIN, min(|.|, MAX))] and whose sign is that of the
    pre-saturation value. *)
Theorem velocity_saturation :
  (forall g tl c ticks,
     Forall (fun cmd : twist => MIN_V <= Rabs (fst cmd) <= MAX_V /\
                                MIN_W <= Rabs (snd cmd) <= MAX_W)
       (fst (run g tl c ticks))) /\
  (forall g tl c p cmd c' stop,
     tick g tl c p = inr (cmd, c', stop) ->
     exists v0 w0, cmd = (saturate MIN_V MAX_V v0, saturate MIN_W MAX_W w0)) /\
  (forall x,
     Rabs (saturate MIN_V MAX_V x) = Rmax MIN_V (Rmin (Rabs x) MAX_V) /\
     Rabs (saturate MIN_W MAX_W x) = Rmax MIN_W (Rmin (Rabs x) MAX_W)) /\
  (forall x,
     (0 < x -> 0 < saturate MIN_V MAX_V x /\ 0 < saturate MIN_W MAX_W x) /\
     (x < 0 -> saturate MIN_V MAX_V x < 0 /\ saturate MIN_W MAX_W x < 0) /\
     (x = 0 -> saturate MIN_V MAX_V x = 0 /\ saturate MIN_W MAX_W x = 0)).
Proof.
  assert (HV : 0 <= MIN_V <= MAX_V) by (unfold MIN_V, MAX_V; lra).
  assert (HW : 0 <= MIN_W <= MAX_W) by (unfold MIN_W, MAX_W; lra).
  split; [| split; [exact tick_saturated | split]].
  - intros g tl c ticks. revert c.
    induction ticks as [| [b p] ticks IH]; intros c; simpl; [constructor |].
    destruct b.
    + constructor; [| constructor]. simpl. rewrite Rabs_R0.
      unfold MIN_V, MAX_V, MIN_W, MAX_W. lra.
    + destruct (tick g tl c p) as [e | [[cmd c'] stop]] eqn:Ht; simpl; [constructor |].
      destruct (tick_saturated g tl c p cmd c' stop Ht) as (v0 & w0 & ->).
      assert (Hc : (fun cmd : twist => MIN_V <= Rabs (fst cmd) <= MAX_V /\
                                       MIN_W <= Rabs (snd cmd) <= MAX_W)
                     (saturate MIN_V MAX_V v0, saturate MIN_W MAX_W w0))
        by (simpl; split; apply saturate_bounds; assumption).
      destruct stop.
      * constructor; [exact Hc | constructor; [| constructor]].
        simpl. rewrite Rabs_R0. unfold MIN_V, MAX_V, MIN_W, MAX_W. lra.
      * specialize (IH c'). destruct (run g tl c' ticks) as [tr s].
        simpl in IH |- *. constructor; assumption.
  - intros x. split; apply saturate_abs; lra.
  - intros x.
    assert (SV := saturate_sign MAX_V x). assert (SW := saturate_sign MAX_W x).
    unfold MIN_V, MIN_W. unfold MAX_V, MAX_W in *.
    specialize (SV ltac:(lra)). specialize (SW ltac:(lra)).
    destruct SV as (SV1 & SV2 & SV3), SW as (SW1 & SW2 & SW3).
    split; [| split]; intros Hx; split; auto.
Qed.

(** Claim C1: in a tick at pose [(x, y, theta)], with
    [alpha = pi2pi(atan2(y_g - y, x_g - x) - theta)] and
    [beta = -theta - alpha + theta_g]: when [|alpha| > pi/2] the tick uses
    [sign = -1], feeds [pi2pi(pi - alpha)] to the bearing controller and
    [pi2pi(pi - beta)] to the heading controller, and sends
    [v = saturate(-1 * val_rho)], negative when the distance controller's
    output [val_rho] is positive; otherwise [sign = +1] and [alpha], [beta]
    are fed unchanged. *)
Theorem direction_resolution (g : goal) (tl : tols) (c : pids) (x y theta : R) :
  pids_ok c ->
  let rho := Math.calc_dist x y (x_goal g) (y_goal g) in
  let alpha := Math.pi2pi (atan2 (y_goal g - y) (x_goal g - x) - theta) in
  let beta := - theta - alpha + theta_goal g in
  exists v w c' stop val_rho,
    tick g tl c (x, y, theta) = inr ((v, w), c', stop) /\
    snd (compute_index (pid_rho c) rho) = inr val_rho /\
    (PI / 2 < Rabs alpha ->
       check_direction alpha beta = (-1, Math.pi2pi (PI - alpha), Math.pi2pi (PI - beta)) /\
       Pid._err_prev (pid_alpha c') = NScal (Math.pi2pi (PI - alpha)) /\
       Pid._err_prev (pid_beta c') = NScal (Math.pi2pi (PI - beta)) /\
       v = saturate MIN_V MAX_V (-1 * val_rho) /\
       (0 < val_rho -> v < 0)) /\
    (Rabs alpha <= PI / 2 ->
       check_direction alpha beta = (1, alpha, beta) /\
       Pid._err_prev (pid_alpha c') = NScal alpha /\
       Pid._err_prev (pid_beta c') = NScal beta /\
       v = saturate MIN_V MAX_V (1 * val_rho)).
Proof.
  intros (Hr & Ha & Hb) rho alpha beta.
  unfold tick, errors. cbv beta iota zeta. fold rho alpha beta.
  destruct (compute_index_scalar _ rho Hr) as (cr & vr & Er & _ & _). rewrite Er.
  unfold check_direction.
  destruct (Rlt_dec (PI / 2) (Rabs alpha)) as [Hd | Hd].
  - destruct (compute_index_scalar _ (Math.pi2pi (PI - alpha)) Ha) as (ca & va & Ea & _ & Pa).
    rewrite Ea.
    destruct (compute_index_scalar _ (Math.pi2pi (PI - beta)) Hb) as (cb & vb & Eb & _ & Pb).
    rewrite Eb.
    do 5 eexists. split; [reflexivity |]. split; [reflexivity |].
    split; [intros _ | intros H; lra].
    split; [reflexivity | split; [exact Pa | split; [exact Pb | split; [reflexivity |]]]].
    intros Hv. unfold pow_exp_ratio, MIN_V.
    apply (saturate_sign MAX_V); [unfold MAX_V; lra | lra].
  - destruct (compute_index_scalar _ alpha Ha) as (ca & va & Ea & _ & Pa). rewrite Ea.
    destruct (compute_index_scalar _ beta Hb) as (cb & vb & Eb & _ & Pb). rewrite Eb.
    do 5 eexists. split; [reflexivity |]. split; [reflexivity |].
    split; [intros H; lra | intros _].
    split; [reflexivity | split; [exact Pa | split; [exact Pb | reflexivity]]].
Qed.

(** A tick of the loop with the controllers [_move_robot_to_pose] would
    build (gains [0.5], [1.0], [-0.5], period [0.05]), robot at [(0, 0, 0)]
    and goal [(-1, 0, 0)] straight behind it: the command drives backwards. *)
Lemma direction_resolution_witness :
  pids_ok (mkPids (Pid.mkPid 0.05 [0.5] [0] [0] [0] (NVec [0]))
                  (Pid.mkPid 0.05 [1.0] [0] [0] [0] (NVec [0]))
                  (Pid.mkPid 0.05 [-0.5] [0] [0] [0] (NVec [0]))) /\
  exists v w c' stop,
    tick (mkGoal (-1) 0 0) (mkTols 0.01 0.01 0.1)
         (mkPids (Pid.mkPid 0.05 [0.5] [0] [0] [0] (NVec [0]))
                 (Pid.mkPid 0.05 [1.0] [0] [0] [0] (NVec [0]))
                 (Pid.mkPid 0.05 [-0.5] [0] [0] [0] (NVec [0])))
         (0, 0, 0) = inr ((v, w), c', stop) /\ v < 0.
Proof.
  assert (Hok : pids_ok (mkPids (Pid.mkPid 0.05 [0.5] [0] [0] [0] (NVec [0]))
                                (Pid.mkPid 0.05 [1.0] [0] [0] [0] (NVec [0]))
                                (Pid.mkPid 0.05 [-0.5] [0] [0] [0] (NVec [0]))))
    by (repeat split; do 6 eexists; right; reflexivity).
  split; [exact Hok |].
  destruct (direction_resolution (mkGoal (-1) 0 0) (mkTols 0.01 0.01 0.1) _ 0 0 0 Hok)
    as (v & w & c' & stop & vr & Ht & Hvr & Hbehind & _).
  exists v, w, c', stop. split; [exact Ht |].
  simpl in Hbehind, Hvr.
  assert (Hatan : atan2 (0 - 0) (-1 - 0) = PI).
  { replace (0 - 0) with 0 by ring. replace (-1 - 0) with (-1) by ring.
    unfold atan2. replace (0 / -1) with 0 by field. rewrite atan_0.
    repeat (destruct (Rlt_dec _ _); try lra); destruct (Rle_dec 0 0); lra. }
  rewrite Hatan, Rminus_0_r, pi2pi_PI in Hbehind.
  unfold Math.calc_dist in Hvr.
  replace ((0 - -1) ^ 2 + (0 - 0) ^ 2) with 1 in Hvr by ring.
  rewrite sqrt_1 in Hvr. simpl in Hvr. injection Hvr as <-.
  apply Hbehind; [rewrite Rabs_Ropp, Rabs_right; pose proof PI_RGT_0; lra | lra].
Defined.

(* ------------------------------------------------------------------------- *)
(** * Further properties of the code *)

(** ** Helpers *)

Lemma pi2pi_id_range (x : R) : - PI <= x < PI -> Math.pi2pi x = x.
Proof.
  intros Hx. pose proof PI_RGT_0. unfold Math.pi2pi, pymod.
  rewrite (Int_part_unique 0 ((x + PI) / (2 * PI))); [simpl; ring |].
  set (q := (x + PI) / (2 * PI)).
  assert (Hq : x + PI = 2 * PI * q) by (unfold q; field; lra).
  simpl. split; nra.
Qed.

Lemma pi2pi_shift (x : R) : PI <= x < 3 * PI -> Math.pi2pi x = x - 2 * PI.
Proof.
  intros Hx. pose proof PI2_pos.
  replace x with ((x - 2 * PI) + 2 * PI) at 1 by ring.
  unfold Math.pi2pi at 1.
  replace (x - 2 * PI + 2 * PI + PI) with ((x - 2 * PI + PI) + 2 * PI) by ring.
  rewrite pymod_plus_period by exact H.
  fold (Math.pi2pi (x - 2 * PI)). apply pi2pi_id_range. lra.
Qed.

Lemma robot2world_eq (x_wr y_wr theta_wr x_rg y_rg theta_rg : R) :
  robot2world x_wr y_wr theta_wr x_rg y_rg theta_rg
  = (x_wr + cos theta_wr * x_rg - sin theta_wr * y_rg,
     y_wr + sin theta_wr * x_rg + cos theta_wr * y_rg,
     atan2 (sin (theta_wr + theta_rg)) (cos (theta_wr + theta_rg))).
Proof.
  unfold robot2world, Math.T_to_xytheta, Math.dot3, Math.xytheta_to_T. simpl.
  rewrite sin_plus, cos_plus.
  f_equal; [f_equal; ring | f_equal; ring].
Qed.

Lemma index_of_None (x : string) (l : list string) :
  ~ In x l -> TurtleMore.index_of x l = None.
Proof.
  induction l as [| y l IH]; intros H; simpl; [reflexivity |].
  destruct (String.eqb_spec x y) as [-> | Hne].
  - exfalso. apply H. left. reflexivity.
  - rewrite IH; [reflexivity |]. intros Hin. apply H. right. exact Hin.
Qed.

Lemma index_of_first (x : string) (l : list string) (i : nat) :
  nth_error l i = Some x ->
  (forall j, (j < i)%nat -> nth_error l j <> Some x) ->
  TurtleMore.index_of x l = Some i.
Proof.
  revert i. induction l as [| y l IH]; intros i Hi Hbefore.
  - destruct i; discriminate.
  - destruct i as [| i]; simpl in Hi |- *.
    + injection Hi as ->. rewrite String.eqb_refl. reflexivity.
    + destruct (String.eqb_spec x y) as [-> | Hne].
      * exfalso. apply (Hbefore 0%nat); [lia | reflexivity].
      * rewrite (IH i Hi); [reflexivity |].
        intros j Hj. apply (Hbefore (S j)). lia.
Qed.

(** ** [Math.pi2pi], [Math.calc_dist], [Math.xytheta_to_T] *)

(** [pi2pi] leaves an angle of [[-pi, pi)] unchanged. *)
Theorem pi2pi_fixed (theta : R) :
  - PI <= theta < PI -> Math.pi2pi theta = theta.
Proof. exact (pi2pi_id_range theta). Qed.

Lemma pi2pi_fixed_witness :
  (- PI <= PI / 2 < PI) /\ Math.pi2pi (PI / 2) = PI / 2.
Proof.
  pose proof PI_RGT_0.
  assert (H0 : - PI <= PI / 2 < PI) by lra.
  split; [exact H0 | exact (pi2pi_fixed (PI / 2) H0)].
Defined.

(** [pi2pi] is idempotent: normalising an already normalised angle
    changes nothing. *)
Theorem pi2pi_idempotent (theta : R) :
  Math.pi2pi (Math.pi2pi theta) = Math.pi2pi theta.
Proof.
  apply pi2pi_id_range. unfold Math.pi2pi.
  pose proof (pymod_range (theta + PI) (2 * PI) PI2_pos). lra.
Qed.

(** [calc_dist] is a distance: non-negative, symmetric, and zero exactly
    for equal points. *)
Theorem calc_dist_metric (x1 y1 x2 y2 : R) :
  0 <= Math.calc_dist x1 y1 x2 y2 /\
  Math.calc_dist x1 y1 x2 y2 = Math.calc_dist x2 y2 x1 y1 /\
  (Math.calc_dist x1 y1 x2 y2 = 0 <-> x1 = x2 /\ y1 = y2).
Proof.
  unfold Math.calc_dist. split; [apply sqrt_pos | split].
  - f_equal. ring.
  - split.
    + intros H. pose proof (pow2_ge_0 (x1 - x2)). pose proof (pow2_ge_0 (y1 - y2)).
      apply sqrt_eq_0 in H; [| lra].
      rewrite <- !Rsqr_pow2 in H. apply Rplus_sqr_eq_0 in H. lra.
    + intros [-> ->]. replace ((x2 - x2) ^ 2 + (y2 - y2) ^ 2) with 0 by ring.
      apply sqrt_0.
Qed.

(** The product of two transforms built by [xytheta_to_T] is the transform
    of the composed pose: the second pose's position rotated by the first
    angle and translated, and the sum of the angles. *)
Theorem xytheta_compose (x1 y1 t1 x2 y2 t2 : R) :
  Math.dot3 (Math.xytheta_to_T x1 y1 t1) (Math.xytheta_to_T x2 y2 t2)
  = Math.xytheta_to_T (x1 + cos t1 * x2 - sin t1 * y2)
                      (y1 + sin t1 * x2 + cos t1 * y2) (t1 + t2).
Proof.
  unfold Math.dot3, Math.xytheta_to_T. simpl.
  rewrite cos_plus, sin_plus. f_equal; ring.
Qed.

(** The frame composition of [_pose_robot2world] (lines 351-355) gives the
    relative position rotated by the robot heading plus the robot position,
    and the heading [theta_wr + theta_rg] when that sum lies in
    [(-pi, pi]]. *)
Theorem robot2world_heading (x_wr y_wr theta_wr x_rg y_rg theta_rg : R) :
  - PI < theta_wr + theta_rg <= PI ->
  robot2world x_wr y_wr theta_wr x_rg y_rg theta_rg
  = (x_wr + cos theta_wr * x_rg - sin theta_wr * y_rg,
     y_wr + sin theta_wr * x_rg + cos theta_wr * y_rg,
     theta_wr + theta_rg).
Proof.
  intros H. rewrite robot2world_eq, atan2_sin_cos by exact H. reflexivity.
Qed.

Lemma robot2world_heading_witness :
  (- PI < 0 + PI / 2 <= PI) /\
  robot2world 1 2 0 3 4 (PI / 2)
  = (1 + cos 0 * 3 - sin 0 * 4, 2 + sin 0 * 3 + cos 0 * 4, 0 + PI / 2).
Proof.
  pose proof PI_RGT_0.
  assert (H0 : - PI < 0 + PI / 2 <= PI) by lra.
  split; [exact H0 | exact (robot2world_heading 1 2 0 3 4 (PI / 2) H0)].
Defined.

(** ** The loop of [_move_robot_to_pose] *)

(** After [# check direction] the bearing error given to the [alpha]
    controller always lies in [[-pi/2, pi/2]], and the sign is [1] or
    [-1]. *)
Theorem check_direction_bound (g : goal) (p : pose) :
  let '(_, alpha0, beta0) := errors g p in
  let '(sign, alpha, _) := check_direction alpha0 beta0 in
  (sign = 1 \/ sign = -1) /\ - (PI / 2) <= alpha <= PI / 2.
Proof.
  destruct p as [[x y] theta]. unfold errors.
  set (a := Math.pi2pi (atan2 (y_goal g - y) (x_goal g - x) - theta)).
  assert (Ha : - PI <= a < PI).
  { unfold a, Math.pi2pi. pose proof (pymod_range
      (atan2 (y_goal g - y) (x_goal g - x) - theta + PI) (2 * PI) PI2_pos). lra. }
  pose proof PI_RGT_0.
  unfold check_direction. destruct (Rlt_dec (PI / 2) (Rabs a)) as [Hf | Hf].
  - split; [right; reflexivity |].
    destruct (Rcase_abs a) as [Hn | Hp].
    + rewrite Rabs_left in Hf by exact Hn.
      rewrite pi2pi_shift by lra. lra.
    + rewrite Rabs_right in Hf by exact Hp.
      rewrite pi2pi_id_range by lra. lra.
  - split; [left; reflexivity |].
    destruct (Rcase_abs a) as [Hn | Hp].
    + rewrite Rabs_left in Hf by exact Hn. lra.
    + rewrite Rabs_right in Hf by exact Hp. lra.
Qed.

(** The stop check compares headings without wrapping them: a goal heading
    more than [theta_tol] beyond [pi] (or below [-pi]) is never met by a
    heading in [(-pi, pi]]. *)
Theorem stop_condition_unwrapped (g : goal) (tl : tols) (x y theta : R) :
  PI + theta_tol tl <= theta_goal g \/ theta_goal g <= - PI - theta_tol tl ->
  - PI < theta <= PI ->
  stop_condition g tl (x, y, theta) = false.
Proof.
  intros Hg Ht. unfold stop_condition, Rltb.
  destruct (Rlt_dec (Rabs (theta - theta_goal g)) (theta_tol tl)) as [Hlt | _].
  - exfalso. pose proof (Rle_abs (theta - theta_goal g)).
    pose proof (Rle_abs (- (theta - theta_goal g))); rewrite Rabs_Ropp in *; pose proof (Rabs_pos (theta - theta_goal g)). destruct Hg; lra.
  - apply Bool.andb_false_r.
Qed.

Lemma stop_condition_unwrapped_witness :
  (PI + 0.1 <= 3 * PI / 2 \/ 3 * PI / 2 <= - PI - 0.1) /\ (- PI < 0 <= PI) /\
  stop_condition (mkGoal 0 0 (3 * PI / 2)) (mkTols 0.1 0.1 0.1) (0, 0, 0) = false.
Proof.
  pose proof PI_RGT_0. pose proof PI2_3_2.
  assert (H1 : PI + 0.1 <= 3 * PI / 2 \/ 3 * PI / 2 <= - PI - 0.1) by (left; lra).
  assert (H2 : - PI < 0 <= PI) by lra.
  split; [exact H1 | split; [exact H2 |]].
  exact (stop_condition_unwrapped (mkGoal 0 0 (3 * PI / 2)) (mkTols 0.1 0.1 0.1) 0 0 0 H1 H2).
Defined.

(** Every exit of the loop that is not an exception, reaching the goal or
    a shutdown, ends with the command [(0, 0)]. *)
Theorem run_ends_with_stop (g : goal) (tl : tols) (c : pids) (ticks : list (bool * pose)) :
  match run g tl c ticks with
  | (tr, Reached) | (tr, Cancelled) => exists tr', tr = tr' ++ [(0, 0)]
  | _ => True
  end.
Proof.
  revert c. induction ticks as [| [b p] rest IH]; intros c; simpl; [exact I |].
  destruct b; [exists []; reflexivity |].
  destruct (tick g tl c p) as [e | [[cmd c'] stop]]; [exact I |].
  destruct stop; [exists [cmd]; reflexivity |].
  destruct (run g tl c' rest) as [tr s] eqn:E.
  pose proof (IH c') as IH'. rewrite E in IH'.
  destruct s; try exact I; destruct IH' as [tr' ->]; exists (cmd :: tr'); reflexivity.
Qed.

(** ** [PidController] *)

(** A proportional-only controller [PidController(T, P=p, I=0.0, D=0.0)]
    with a non-zero period [T] returns [[e * p]] on every call, whatever
    the errors before. *)
Theorem compute_P_only (T p : R) (es : list R) :
  T <> 0 ->
  exists c,
    Pid.PidController (Some T) (Some (PyFloat p)) (Some (PyFloat 0)) (Some (PyFloat 0))
      = inr c /\
    snd (Pid.compute_all c (map NScal es)) = map (fun e => Some (NVec [e * p])) es.
Proof.
  intros HT. exists (Pid.mkPid T [p] [0] [0] [0] (NVec [0])). split; [reflexivity |].
  assert (Hgen : forall s e0 prev, prev = NScal e0 \/ prev = NVec [e0] ->
            snd (Pid.compute_all (Pid.mkPid T [p] [0] [0] [s] prev) (map NScal es))
            = map (fun e => Some (NVec [e * p])) es).
  { induction es as [| e es IH]; intros s e0 prev Hprev; [reflexivity |].
    destruct (compute_scalar_step T p 0 0 s e0 e prev Hprev) as [r [Hc Hr]].
    simpl. rewrite Hc.
    specialize (IH (s + e) e (NScal e) (or_introl eq_refl)).
    destruct (Pid.compute_all _ (map NScal es)) as [c'' outs] eqn:E.
    simpl in IH |- *. rewrite IH.
    replace r with (e * p) by (rewrite Hr; field; exact HT). reflexivity. }
  apply (Hgen 0 0 (NVec [0])). right. reflexivity.
Qed.

Lemma compute_P_only_witness :
  0.05 <> 0 /\
  exists c,
    Pid.PidController (Some 0.05) (Some (PyFloat 0.5)) (Some (PyFloat 0)) (Some (PyFloat 0))
      = inr c /\
    snd (Pid.compute_all c (map NScal [1; 2])) = map (fun e => Some (NVec [e * 0.5])) [1; 2].
Proof.
  assert (H : 0.05 <> 0) by lra.
  split; [exact H | exact (compute_P_only 0.05 0.5 [1; 2] H)].
Defined.

(** An array error whose length is not that of the gains makes [compute]
    raise at its first line, leaving the controller unchanged. *)
Theorem compute_length_mismatch (c : Pid.pid) (e : list R) :
  List.length e <> List.length (Pid._P c) ->
  Pid.compute c (NVec e) = (c, None).
Proof.
  intros H. unfold Pid.compute, Np.dot.
  rewrite (proj2 (Nat.eqb_neq _ _) H). reflexivity.
Qed.

Lemma compute_length_mismatch_witness :
  List.length [1; 2] <> List.length (Pid._P (Pid.mkPid 0.05 [0.5] [0] [0] [0] (NVec [0]))) /\
  Pid.compute (Pid.mkPid 0.05 [0.5] [0] [0] [0] (NVec [0])) (NVec [1; 2])
  = (Pid.mkPid 0.05 [0.5] [0] [0] [0] (NVec [0]), None).
Proof.
  assert (H : List.length [1; 2] <> List.length (Pid._P (Pid.mkPid 0.05 [0.5] [0] [0] [0] (NVec [0]))))
    by (simpl; discriminate).
  split; [exact H | exact (compute_length_mismatch _ [1; 2] H)].
Defined.

(** ** The other [Turtle] methods *)

(** [Turtle.__init__] never returns: it raises [AttributeError], on
    [self._reset_time()] or on a configuration key the YAML file lacks,
    before any command is sent. *)
Theorem init_raises (cfg : list (string * cfgval)) :
  exists n,
    TurtleMore.__init__ cfg = (inl (AttributeError n), []) /\
    (n = "_reset_time"%string \/ find (fun kv => String.eqb (fst kv) n) cfg = None).
Proof.
  unfold TurtleMore.__init__, TurtleMore.cfg_get.
  destruct (find (fun kv => String.eqb (fst kv) "topic_set_turlte_speed") cfg)
    as [[k1 v1] |] eqn:E1;
    [| eexists; split; [reflexivity | right; exact E1]].
  simpl.
  destruct (find (fun kv => String.eqb (fst kv) "is_in_simulation") cfg)
    as [[k2 v2] |] eqn:E2;
    [| eexists; split; [reflexivity | right; exact E2]].
  simpl. destruct (TurtleMore.truthy v2).
  - destruct (find (fun kv => String.eqb (fst kv) "topic_get_turtle_speed_env_sim") cfg)
      as [[k3 v3] |] eqn:E3;
      [| eexists; split; [reflexivity | right; exact E3]].
    exists "_reset_time"%string. split; [reflexivity | left; reflexivity].
  - destruct (find (fun kv => String.eqb (fst kv) "topic_get_turtle_speed_env_real") cfg)
      as [[k3 v3] |] eqn:E3;
      [| eexists; split; [reflexivity | right; exact E3]].
    exists "_reset_time"%string. split; [reflexivity | left; reflexivity].
Qed.

(** [reset_pose] always raises [AttributeError] on [self._is_in_simulation],
    and [_reset_pose_env_real] and [_reset_pose_env_sim] on [self._clf],
    before doing anything. *)
Theorem reset_pose_raises (is_sim clf_is_sim : bool) (set_state : Turtle.M unit) :
  TurtleMore.reset_pose is_sim clf_is_sim set_state
    = (inl (AttributeError "_is_in_simulation"), []) /\
  TurtleMore._reset_pose_env_real clf_is_sim = (inl (AttributeError "_clf"), []) /\
  TurtleMore._reset_pose_env_sim clf_is_sim set_state = (inl (AttributeError "_clf"), []).
Proof. repeat split. Qed.

(** [move_a_circle] and [move_forward] never send a velocity: they return
    [True] only when shutdown is requested before the first iteration, and
    otherwise raise [AttributeError] on [self._set_twist]. *)
Theorem spin_never_commands (flags : list bool) (v w : R) :
  snd (TurtleMore.move_a_circle flags v w) = [] /\
  snd (TurtleMore.move_forward flags v) = [] /\
  (fst (TurtleMore.move_a_circle flags v w) = inr (Some true) <-> hd_error flags = Some true) /\
  (fst (TurtleMore.move_forward flags v) = inr (Some true) <-> hd_error flags = Some true) /\
  (hd_error flags = Some false ->
   fst (TurtleMore.move_a_circle flags v w) = inl (AttributeError "_set_twist") /\
   fst (TurtleMore.move_forward flags v) = inl (AttributeError "_set_twist")).
Proof.
  destruct flags as [| [] rest]; cbn;
    repeat split; intros; try discriminate; reflexivity.
Qed.

(** [_callback_sub_pose_env_sim]: a [turtle_name] missing from
    [model_states.name] raises [ValueError] and keeps the pose and twist. *)
Theorem callback_missing_name {Pose Tw : Type} (turtle_name : string)
    (names : list string) (poses : list Pose) (twists : list Tw)
    (s : TurtleMore.pose_state Pose Tw) :
  ~ In turtle_name names ->
  TurtleMore._callback_sub_pose_env_sim turtle_name names poses twists s
  = (inl (ValueError "is not in list"), s).
Proof.
  intros H. unfold TurtleMore._callback_sub_pose_env_sim.
  rewrite index_of_None by exact H. reflexivity.
Qed.

Lemma callback_missing_name_witness :
  ~ In "turtle"%string ["box"%string] /\
  TurtleMore._callback_sub_pose_env_sim "turtle" ["box"%string] [1%nat] [2%nat]
    (TurtleMore.mkPoseState nat nat 0%nat 0%nat)
  = (inl (ValueError "is not in list"), TurtleMore.mkPoseState nat nat 0%nat 0%nat).
Proof.
  assert (H : ~ In "turtle"%string ["box"%string])
    by (simpl; intros [H | []]; discriminate).
  split; [exact H |].
  exact (callback_missing_name "turtle" ["box"%string] [1%nat] [2%nat] _ H).
Defined.

(** [_callback_sub_pose_env_sim] takes the pose and twist at the first
    position of [turtle_name] in [model_states.name]. *)
Theorem callback_first_match {Pose Tw : Type} (turtle_name : string)
    (names : list string) (poses : list Pose) (twists : list Tw)
    (s : TurtleMore.pose_state Pose Tw) (i : nat) (p : Pose) (t : Tw) :
  nth_error names i = Some turtle_name ->
  (forall j, (j < i)%nat -> nth_error names j <> Some turtle_name) ->
  nth_error poses i = Some p -> nth_error twists i = Some t ->
  TurtleMore._callback_sub_pose_env_sim turtle_name names poses twists s
  = (inr tt, TurtleMore.mkPoseState Pose Tw p t).
Proof.
  intros Hi Hb Hp Ht. unfold TurtleMore._callback_sub_pose_env_sim.
  rewrite (index_of_first _ _ i Hi Hb), Hp, Ht. reflexivity.
Qed.

Lemma callback_first_match_witness :
  nth_error ["box"%string; "turtle"%string; "turtle"%string] 1 = Some "turtle"%string /\
  (forall j, (j < 1)%nat ->
     nth_error ["box"%string; "turtle"%string; "turtle"%string] j <> Some "turtle"%string) /\
  nth_error [10%nat; 11%nat; 12%nat] 1 = Some 11%nat /\
  nth_error [20%nat; 21%nat; 22%nat] 1 = Some 21%nat /\
  TurtleMore._callback_sub_pose_env_sim "turtle"
    ["box"%string; "turtle"%string; "turtle"%string] [10%nat; 11%nat; 12%nat]
    [20%nat; 21%nat; 22%nat] (TurtleMore.mkPoseState nat nat 0%nat 0%nat)
  = (inr tt, TurtleMore.mkPoseState nat nat 11%nat 21%nat).
Proof.
  assert (H1 : nth_error ["box"%string; "turtle"%string; "turtle"%string] 1
               = Some "turtle"%string) by reflexivity.
  assert (H2 : forall j, (j < 1)%nat ->
     nth_error ["box"%string; "turtle"%string; "turtle"%string] j <> Some "turtle"%string)
    by (intros [| j] Hj; [discriminate | lia]).
  assert (H3 : nth_error [10%nat; 11%nat; 12%nat] 1 = Some 11%nat) by reflexivity.
  assert (H4 : nth_error [20%nat; 21%nat; 22%nat] 1 = Some 21%nat) by reflexivity.
  split; [exact H1 | split; [exact H2 | split; [exact H3 | split; [exact H4 |]]]].
  exact (callback_first_match "turtle" _ _ _ (TurtleMore.mkPoseState nat nat 0%nat 0%nat)
           1%nat 11%nat 21%nat H1 H2 H3 H4).
Defined.

(** [_callback_sub_pose_env_sim] with fewer twists than poses: the
    [IndexError] on [model_states.twist[idx]] comes after [self._pose] has
    been set, so the new pose is kept with the old twist. *)
Theorem callback_partial_update {Pose Tw : Type} (turtle_name : string)
    (names : list string) (poses : list Pose) (twists : list Tw)
    (s : TurtleMore.pose_state Pose Tw) (i : nat) (p : Pose) :
  nth_error names i = Some turtle_name ->
  (forall j, (j < i)%nat -> nth_error names j <> Some turtle_name) ->
  nth_error poses i = Some p -> (List.length twists <= i)%nat ->
  TurtleMore._callback_sub_pose_env_sim turtle_name names poses twists s
  = (inl (IndexError "list index out of range"),
     TurtleMore.mkPoseState Pose Tw p (TurtleMore.st_twist s)).
Proof.
  intros Hi Hb Hp Ht. unfold TurtleMore._callback_sub_pose_env_sim.
  rewrite (index_of_first _ _ i Hi Hb), Hp.
  rewrite (proj2 (nth_error_None twists i) Ht). reflexivity.
Qed.

Lemma callback_partial_update_witness :
  nth_error ["turtle"%string] 0 = Some "turtle"%string /\
  (forall j, (j < 0)%nat -> nth_error ["turtle"%string] j <> Some "turtle"%string) /\
  nth_error [10%nat] 0 = Some 10%nat /\ (List.length (@nil nat) <= 0)%nat /\
  TurtleMore._callback_sub_pose_env_sim "turtle" ["turtle"%string] [10%nat] (@nil nat)
    (TurtleMore.mkPoseState nat nat 0%nat 5%nat)
  = (inl (IndexError "list index out of range"), TurtleMore.mkPoseState nat nat 10%nat 5%nat).
Proof.
  assert (H1 : nth_error ["turtle"%string] 0 = Some "turtle"%string) by reflexivity.
  assert (H2 : forall j, (j < 0)%nat -> nth_error ["turtle"%string] j <> Some "turtle"%string)
    by (intros j Hj; lia).
  assert (H3 : nth_error [10%nat] 0 = Some 10%nat) by reflexivity.
  assert (H4 : (List.length (@nil nat) <= 0)%nat) by (simpl; lia).
  split; [exact H1 | split; [exact H2 | split; [exact H3 | split; [exact H4 |]]]].
  exact (callback_partial_update "turtle" _ _ _ (TurtleMore.mkPoseState nat nat 0%nat 5%nat)
           0%nat 10%nat H1 H2 H3 H4).
Defined.
